(** * gh-fork-sync: the sync orchestration of [main.go], embedded and verified

    The development follows [main.go] function by function.

    - Go strings are byte sequences: they are modelled by [string]
      (a list of 8-bit [ascii] characters), a multi-byte UTF-8 character
      such as the check mark being the sequence of its bytes.
    - A Go [error] built by [fmt.Errorf] is modelled by its message
      ([err.Error()]); [nil] is [None].
    - The external collaborators ([exec.Command(..).CombinedOutput()],
      [api.DefaultRESTClient], [client.Get], [safeexec.LookPath]) are
      functions over an abstract [World]; the program threads the world and a
      log of everything it called and printed. *)

From Stdlib Require Import String Ascii List Bool Arith Lia.
Import ListNotations.
Open Scope list_scope.
Open Scope string_scope.

(** ** The part of Go's [strings] package that [main.go] uses *)

Module strings.

(** [s[n:]] *)
Fixpoint drop (n : nat) (s : string) : string :=
  match n, s with
  | O, _ => s
  | S _, EmptyString => EmptyString
  | S n', String _ s' => drop n' s'
  end.

(** [s[:n]] *)
Fixpoint take (n : nat) (s : string) : string :=
  match n, s with
  | O, _ => EmptyString
  | S _, EmptyString => EmptyString
  | S n', String c s' => String c (take n' s')
  end.

(** [strings.HasPrefix(s, prefix)] *)
Definition HasPrefix (s pre : string) : bool := String.prefix pre s.

(** [strings.HasSuffix(s, suffix)]:
    [len(s) >= len(suffix) && s[len(s)-len(suffix):] == suffix] *)
Definition HasSuffix (s suf : string) : bool :=
  Nat.leb (String.length suf) (String.length s)
  && String.eqb (drop (String.length s - String.length suf) s) suf.

(** [strings.TrimPrefix(s, prefix)] *)
Definition TrimPrefix (s pre : string) : string :=
  if HasPrefix s pre then drop (String.length pre) s else s.

(** [strings.TrimSuffix(s, suffix)] *)
Definition TrimSuffix (s suf : string) : string :=
  if HasSuffix s suf then take (String.length s - String.length suf) s else s.

(** [strings.Index(s, substr)]: the position of the first occurrence of
    [substr] in [s]; Go's [-1] is [None]. *)
Fixpoint Index (s sub : string) : option nat :=
  if String.prefix sub s then Some 0
  else match s with
       | EmptyString => None
       | String _ s' => option_map S (Index s' sub)
       end.

(** [strings.Contains(s, substr)]: [Index(s, substr) >= 0] *)
Definition Contains (s sub : string) : bool :=
  match Index s sub with Some _ => true | None => false end.

(** The loop of [genSplit]: at most [k] cuts, then the rest. *)
Fixpoint splitLoop (k : nat) (s sep : string) : list string :=
  match k with
  | O => [s]
  | S k' =>
      match Index s sep with
      | None => [s]
      | Some m => take m s :: splitLoop k' (drop (m + String.length sep) s) sep
      end
  end.

(** [strings.SplitN(s, sep, n)] for [n >= 0] and a non-empty [sep] (the
    only way [main.go] calls it): [n == 0] gives no slice at all,
    otherwise [n] is capped at [len(s)+1] and the loop cuts [n-1] times. *)
Definition SplitN (s sep : string) (n : nat) : list string :=
  match n with
  | O => []
  | S _ => splitLoop (Nat.min n (S (String.length s)) - 1) s sep
  end.

(** [strings.Join(elems, sep)] *)
Fixpoint Join (elems : list string) (sep : string) : string :=
  match elems with
  | [] => ""
  | [e] => e
  | e :: rest => e ++ sep ++ Join rest sep
  end.

(** The six ASCII bytes of [asciiSpace]: tab, line feed, vertical tab,
    form feed, carriage return, space. *)
Definition asciiSpace (c : ascii) : bool :=
  let n := nat_of_ascii c in
  (Nat.leb 9 n && Nat.leb n 13) || Nat.eqb n 32.

Fixpoint trimLeftASCII (s : string) : string :=
  match s with
  | String c s' => if asciiSpace c then trimLeftASCII s' else s
  | EmptyString => EmptyString
  end.

Fixpoint trimRightASCII (s : string) : string :=
  match s with
  | EmptyString => EmptyString
  | String c s' =>
      match trimRightASCII s' with
      | EmptyString => if asciiSpace c then EmptyString else String c EmptyString
      | t => String c t
      end
  end.

(** [strings.TrimSpace] on its ASCII path, that is for a string all of
    whose bytes are below [0x80].  (On other strings Go decodes UTF-8 and
    consults the Unicode tables; the orchestrator below takes the trimming
    function as a parameter, and this instance is used for concrete runs.) *)
Definition TrimSpaceASCII (s : string) : string :=
  trimRightASCII (trimLeftASCII s).

End strings.

(** ** Data model of [main.go] *)

(** [AppConfig] *)
Record AppConfig := {
  UpstreamBranch : string;
  OriginBranch : string;
  Rebase : bool;
  ForcePush : bool;
  DryRun : bool
}.

(** The anonymous struct of [RepoInfo.Parent] *)
Record ParentInfo := {
  ParentFullName : string;
  CloneURL : string
}.

(** [RepoInfo] *)
Record RepoInfo := {
  FullName : string;
  Fork : bool;
  Parent : ParentInfo
}.

(** [GitCommand] *)
Record GitCommand := {
  Args : list string;
  Description : string
}.

(** A Go error, by its message. *)
Definition error := string.

(** A computation that may panic (here: a slice index out of range). *)
Inductive outcome (A : Type) : Type :=
| Normal (a : A)
| Panic.
Arguments Normal {A} a.
Arguments Panic {A}.

(** [xs[i]] *)
Definition index_at (xs : list string) (i : nat) : outcome string :=
  match nth_error xs i with
  | Some x => Normal x
  | None => Panic
  end.

(** ** [GetOriginRepo], from the trimmed URL on (lines 83-103)

    First the slice [parts] of lines 84-95; [None] stands for the last
    branch, which returns at once. *)
Definition originParts (url : string) : outcome (option (list string)) :=
  if strings.HasPrefix url "git@github.com:" then
    let path := strings.TrimPrefix url "git@github.com:" in
    Normal (Some (strings.SplitN path "/" 2))
  else if strings.Contains url "github.com/" then
    match index_at (strings.SplitN url "github.com/" 2) 1 with
    | Panic => Panic
    | Normal path => Normal (Some (strings.SplitN path "/" 2))
    end
  else
    Normal None.

(** The three results [(owner, repo, err)] are kept as Go returns them. *)
Definition parseOriginURL (url : string) : outcome (string * string * option error) :=
  match originParts url with
  | Panic => Panic
  | Normal None => Normal ("", "", Some ("unsupported origin URL format: " ++ url))
  | Normal (Some parts) =>
      if Nat.ltb (List.length parts) 2 then
        Normal ("", "", Some ("failed to parse owner/repo from URL: " ++ url))
      else
        match index_at parts 0 with
        | Panic => Panic
        | Normal owner =>
            match index_at parts 1 with
            | Panic => Panic
            | Normal p1 => Normal (owner, strings.TrimSuffix p1 ".git", None)
            end
        end
  end.

(** The line feed that Go writes as a backslash followed by n, and that
    [fmt.Println] appends. *)
Definition LF : string := String (ascii_of_nat 10) EmptyString.

(** Go's built-in [append(s, elems...)] *)
Definition go_append {A : Type} (s elems : list A) : list A := List.app s elems.

(** ** [validateFork] (on the struct its pointer argument refers to) *)
Definition validateFork (info : RepoInfo) : option error :=
  if negb (Fork info) then
    Some ("repository " ++ FullName info ++ " isn't a fork")
  else None.

(** ** [getSyncCommand] *)
Definition getSyncCommand (config : AppConfig) (upstreamBranch : string) : GitCommand :=
  if Rebase config then
    let args := ["rebase"; "upstream"] in
    let args := if negb (String.eqb upstreamBranch "")
                then go_append args ["upstream/" ++ upstreamBranch] else args in
    {| Args := args; Description := "rebasing onto upstream" |}
  else
    let args := ["merge"; "upstream"] in
    let args := if negb (String.eqb upstreamBranch "")
                then go_append args ["upstream/" ++ upstreamBranch] else args in
    {| Args := args; Description := "merging upstream" |}.

(** The error that [runGitCommand] makes of a failed command, of the
    error [e] of the process and of its combined output. *)
Definition commandError (cmd : GitCommand) (e : error) (output : string) : error :=
  Description cmd ++ ": " ++ e ++ LF ++ "Output: " ++ output.

(** The push arguments that [main] builds (lines 261-265). *)
Definition pushArgs (config : AppConfig) : list string :=
  let pushArgs := ["push"] in
  let pushArgs := if ForcePush config then go_append pushArgs ["-f"] else pushArgs in
  go_append pushArgs ["origin"; "HEAD:" ++ OriginBranch config].

(** ** What a run does to the outside *)

Inductive event : Type :=
| Printed (text : string)
    (** written to standard output *)
| Executed (name : string) (args : list string) (output : string) (err : option error)
    (** [exec.Command(name, args...).CombinedOutput()] and what it gave *)
| NewRESTClient (err : option error)
    (** [api.DefaultRESTClient()] *)
| ApiGet (path : string) (response : RepoInfo) (err : option error)
    (** [client.Get(path, info)] *)
| LookedPath (file : string) (path : string) (err : option error).
    (** [safeexec.LookPath(file)] *)

(** How a statement ends: control goes on with a value, [main] returns, or
    the program panics. *)
Inductive flow (A : Type) : Type :=
| Next (a : A)
| Return
| Panicked.
Arguments Next {A} a.
Arguments Return {A}.
Arguments Panicked {A}.

Definition isPrinted (e : event) : bool :=
  match e with Printed _ => true | _ => false end.

(** Calls to the version-control tool or the hosting API. *)
Definition collaboratorCalls (log : list event) : nat :=
  List.length (List.filter (fun e => negb (isPrinted e)) log).

(** The lines written to standard output, in order. *)
Fixpoint printedOf (log : list event) : list string :=
  match log with
  | [] => []
  | Printed t :: rest => t :: printedOf rest
  | _ :: rest => printedOf rest
  end.

Section Orchestrator.

(** The state of everything outside the process. *)
Variable World : Type.

(** [exec.Command(name, args...).CombinedOutput()] *)
Variable CombinedOutput : string -> list string -> World -> (string * option error) * World.
(** [api.DefaultRESTClient()]; the client is only used through [client_Get] *)
Variable DefaultRESTClient : World -> option error * World.
(** [client.Get(path, info)]: the decoded response and the error *)
Variable client_Get : string -> World -> (RepoInfo * option error) * World.
(** [safeexec.LookPath(file)] *)
Variable LookPath : string -> World -> (string * option error) * World.
(** [strings.TrimSpace] *)
Variable TrimSpace : string -> string.

(** A statement: from a world to how it ends, the new world and the
    events it caused, oldest first. *)
Definition M (A : Type) : Type := World -> flow A * World * list event.

Definition ret {A} (a : A) : M A := fun w => (Next a, w, []).

Definition bind {A B} (m : M A) (k : A -> M B) : M B :=
  fun w =>
    match m w with
    | (Next a, w1, t1) =>
        match k a w1 with (r, w2, t2) => (r, w2, (t1 ++ t2)%list) end
    | (Return, w1, t1) => (Return, w1, t1)
    | (Panicked, w1, t1) => (Panicked, w1, t1)
    end.

Definition return_ {A} : M A := fun w => (Return, w, []).
Definition panic {A} : M A := fun w => (Panicked, w, []).
Definition skip : M unit := ret tt.

Notation "x <- m ;; k" := (bind m (fun x => k))
  (at level 61, m at next level, right associativity).
Notation "' pat <- m ;; k" := (bind m (fun x => match x with pat => k end))
  (at level 61, pat pattern, m at next level, right associativity).
Notation "m ;; k" := (bind m (fun _ => k))
  (at level 61, right associativity).

(** [fmt.Printf] with the text already formatted *)
Definition Printf (text : string) : M unit := fun w => (Next tt, w, [Printed text]).
(** [fmt.Println] *)
Definition Println (text : string) : M unit := Printf (text ++ LF).

Definition exec_CombinedOutput (name : string) (args : list string)
  : M (string * option error) :=
  fun w => let '((out, err), w') := CombinedOutput name args w in
           (Next (out, err), w', [Executed name args out err]).

Definition api_DefaultRESTClient : M (option error) :=
  fun w => let '(err, w') := DefaultRESTClient w in
           (Next err, w', [NewRESTClient err]).

Definition api_Get (path : string) : M (RepoInfo * option error) :=
  fun w => let '((info, err), w') := client_Get path w in
           (Next (info, err), w', [ApiGet path info err]).

Definition safeexec_LookPath (file : string) : M (string * option error) :=
  fun w => let '((path, err), w') := LookPath file w in
           (Next (path, err), w', [LookedPath file path err]).

(** Lifts a pure computation that may panic. *)
Definition liftOutcome {A} (o : outcome A) : M A :=
  match o with
  | Normal a => ret a
  | Panic => panic
  end.

(** [GetOriginRepo] *)
Definition GetOriginRepo : M (string * string * option error) :=
  '(output, err) <- exec_CombinedOutput "git" ["remote"; "get-url"; "origin"] ;;
  match err with
  | Some e => ret ("", "", Some ("failed to get origin remote: " ++ e))
  | None =>
      let url := TrimSpace output in
      liftOutcome (parseOriginURL url)
  end.

(** [getRepoInfo]; the pointer it returns is [None] for [nil]. *)
Definition getRepoInfo (owner repoName : string) : M (option RepoInfo * option error) :=
  '(info, err) <- api_Get ("repos/" ++ owner ++ "/" ++ repoName) ;;
  match err with
  | Some e => ret (None, Some ("failed to get repo info: " ++ e))
  | None => ret (Some info, None)
  end.

(** [runGitCommand] *)
Definition runGitCommand (gitBin : string) (cmd : GitCommand) : M (option error) :=
  '(output, err) <- exec_CombinedOutput gitBin (Args cmd) ;;
  match err with
  | Some e => ret (Some (commandError cmd e output))
  | None => ret None
  end.

(** [printDryRun] *)
Definition printDryRun (config : AppConfig) (parentCloneURL : string) : M unit :=
  Println "Note: The following commands are examples. The actual upstream URL will be taken from your fork's parent repository." ;;
  Println "Dry run mode - commands that would be executed:" ;;
  Printf ("Would run: git remote add upstream " ++ parentCloneURL ++ LF) ;;
  Printf ("Would run: git fetch upstream" ++ LF) ;;
  (if Rebase config then
     Printf ("Would run: git rebase upstream/" ++ UpstreamBranch config ++ LF)
   else
     Printf ("Would run: git merge upstream/" ++ UpstreamBranch config ++ LF)) ;;
  let pushCmd := "push" in
  let pushCmd := if ForcePush config then pushCmd ++ " -f" else pushCmd in
  Printf ("Would run: git " ++ pushCmd ++ " origin HEAD:" ++ OriginBranch config ++ LF).

(** [main] from line 220 on: the four commands, with the fork's metadata
    [repoInfo] and the path [gitBin] of the tool that the lines before
    have found. *)
Definition syncUpstream (config : AppConfig) (repoInfo : RepoInfo) (gitBin : string)
  : M unit :=
  let cmd := {| Args := ["remote"; "add"; "upstream"; CloneURL (Parent repoInfo)];
                Description := "adding upstream remote" |} in
  err <- runGitCommand gitBin cmd ;;
  match err with
  | Some e =>
      if negb (strings.Contains e "remote upstream already exists") then
        Printf ("✗ Error while " ++ e ++ LF) ;; return_
      else skip
  | None => skip
  end ;;
  let cmd := {| Args := ["fetch"; "upstream"]; Description := "fetching upstream" |} in
  err <- runGitCommand gitBin cmd ;;
  match err with
  | Some e => Printf ("✗ Error while " ++ e ++ LF) ;; return_
  | None => skip
  end ;;
  Println "✓ Fetched upstream" ;;
  let cmd := getSyncCommand config (UpstreamBranch config) in
  err <- runGitCommand gitBin cmd ;;
  match err with
  | Some e =>
      Printf ("✗ Error while " ++ e ++ LF) ;;
      (if Rebase config then
         Println "To abort the rebase, run: git rebase --abort"
       else
         Println "To abort the merge, run: git merge --abort") ;;
      return_
  | None => skip
  end ;;
  (if Rebase config then
     Printf ("✓ Rebased onto upstream/" ++ UpstreamBranch config ++ LF)
   else
     Printf ("✓ Merged upstream/" ++ UpstreamBranch config ++ LF)) ;;
  let cmd := {| Args := pushArgs config;
                Description := "pushing to origin/" ++ OriginBranch config |} in
  err <- runGitCommand gitBin cmd ;;
  match err with
  | Some e => Printf ("✗ Error while " ++ e ++ LF) ;; return_
  | None => skip
  end ;;
  Printf ("✓ Pushed to origin/" ++ OriginBranch config ++ LF).


(** [main], from the configuration that [parseFlags] returned. *)
Definition main (config : AppConfig) : M unit :=
  (if DryRun config then
     printDryRun config "https://github.com/upstream/repo.git" ;;
     return_
   else skip) ;;
  err <- api_DefaultRESTClient ;;
  match err with
  | Some e => Printf ("✗ Error: " ++ e ++ LF) ;; return_
  | None => skip
  end ;;
  '(owner, repoName, err) <- GetOriginRepo ;;
  match err with
  | Some e => Printf ("✗ Error: " ++ e ++ LF) ;; return_
  | None => skip
  end ;;
  '(repoInfo, err) <- getRepoInfo owner repoName ;;
  match err with
  | Some e => Printf ("✗ Error: " ++ e ++ LF) ;; return_
  | None => skip
  end ;;
  repoInfo <- match repoInfo with Some info => ret info | None => panic end ;;
  match validateFork repoInfo with
  | Some e => Printf ("✗ " ++ e ++ LF) ;; return_
  | None => skip
  end ;;
  Printf ("✓ Detected fork: " ++ FullName repoInfo ++ " (parent: "
          ++ ParentFullName (Parent repoInfo) ++ ")" ++ LF) ;;
  '(gitBin, err) <- safeexec_LookPath "git" ;;
  match err with
  | Some e => Printf ("✗ Error while looking for git: " ++ e ++ LF) ;; return_
  | None => skip
  end ;;
  syncUpstream config repoInfo gitBin.

(** The events [pre] happened, then the statement ran. *)
Definition after {A : Type} (pre : list event) (x : flow A * World * list event)
  : flow A * World * list event :=
  match x with (r, w, t) => (r, w, (pre ++ t)%list) end.

(** The events of a whole run of the program. *)
Definition logOf (config : AppConfig) (w : World) : list event :=
  snd (main config w).

(** How the run ends: [main] came to its end or returned ([true]), or the
    program panicked ([false]). *)
Definition exitsNormally (config : AppConfig) (w : World) : bool :=
  match fst (fst (main config w)) with
  | Panicked => false
  | _ => true
  end.

End Orchestrator.

(** ** A scripted outside world, for concrete runs

    The world has no state of its own: what each collaborator answers is
    fixed by the script. *)

Record script := {
  originOutput : string;        (** what [git remote get-url origin] writes *)
  apiResponse : RepoInfo * option error;
  gitPath : string * option error;
  (** output and error of the commands that fail, by first argument *)
  failing : string -> option (string * error)
}.

Definition argsEqb (a b : list string) : bool :=
  if list_eq_dec string_dec a b then true else false.

Definition scriptedExec (sc : script) (name : string) (args : list string) (w : unit)
  : (string * option error) * unit :=
  if argsEqb args ["remote"; "get-url"; "origin"] then ((originOutput sc, None), w)
  else match args with
       | verb :: _ =>
           match failing sc verb with
           | Some (out, e) => ((out, Some e), w)
           | None => (("", None), w)
           end
       | [] => (("", None), w)
       end.

Definition scriptedMain (sc : script) (config : AppConfig) : M unit unit :=
  main unit (scriptedExec sc)
       (fun w => (None, w))
       (fun _ w => (apiResponse sc, w))
       (fun _ w => (gitPath sc, w))
       strings.TrimSpaceASCII
       config.

(** A fork [me/stream] of [up/stream], every command succeeding. *)
Definition forkScript : script := {|
  originOutput := "https://github.com/me/stream.git" ++ LF;
  apiResponse := ({| FullName := "me/stream"; Fork := true;
                     Parent := {| ParentFullName := "up/stream";
                                  CloneURL := "https://github.com/up/stream.git" |} |},
                  None);
  gitPath := ("/usr/bin/git", None);
  failing := fun _ => None
|}.

(** The same fork, with the commands whose first argument is [verb]
    failing with the output [out]. *)
Definition failingAt (verb out : string) : script := {|
  originOutput := originOutput forkScript;
  apiResponse := apiResponse forkScript;
  gitPath := gitPath forkScript;
  failing := fun v => if String.eqb v verb then Some (out, "exit status 1") else None
|}.

Definition defaultConfig : AppConfig := {|
  UpstreamBranch := "main"; OriginBranch := "main";
  Rebase := false; ForcePush := false; DryRun := false
|}.

Definition dryRunConfig : AppConfig := {|
  UpstreamBranch := "main"; OriginBranch := "main";
  Rebase := false; ForcePush := false; DryRun := true
|}.

(** The command line that runs a [GitCommand]: the tool and the arguments,
    separated by blanks; the form in which the dry run shows a command
    after the words "Would run: ". *)
Definition commandLine (cmd : GitCommand) : string :=
  "git " ++ strings.Join (Args cmd) " ".

(** The text of [url] after the host marker, as [GetOriginRepo] takes it:
    after the prefix of the SSH shape, or else after the first
    "github.com/"; none when the URL has neither. *)
Definition originPath (url : string) : option string :=
  if strings.HasPrefix url "git@github.com:" then
    Some (strings.drop (String.length "git@github.com:") url)
  else
    match strings.Index url "github.com/" with
    | Some m => Some (strings.drop (m + String.length "github.com/") url)
    | None => None
    end.

(** The owner and the name that a return value carries when it has no error. *)
Definition identityOf (r : outcome (string * string * option error))
  : option (string * string) :=
  match r with
  | Normal (owner, repo, None) => Some (owner, repo)
  | _ => None
  end.

(** ** Reading a log *)

(** The commands run, oldest first: arguments, combined output, error. *)
Fixpoint executedOf (log : list event) : list (list string * string * option error) :=
  match log with
  | [] => []
  | Executed _ args out err :: rest => (args, out, err) :: executedOf rest
  | _ :: rest => executedOf rest
  end.

(** The four commands of [syncUpstream], in the order of the source. *)
Definition remoteAddCommand (repoInfo : RepoInfo) : GitCommand :=
  {| Args := ["remote"; "add"; "upstream"; CloneURL (Parent repoInfo)];
     Description := "adding upstream remote" |}.

Definition fetchCommand : GitCommand :=
  {| Args := ["fetch"; "upstream"]; Description := "fetching upstream" |}.

Definition pushCommand (config : AppConfig) : GitCommand :=
  {| Args := pushArgs config;
     Description := "pushing to origin/" ++ OriginBranch config |}.

Definition plannedCommands (config : AppConfig) (repoInfo : RepoInfo) : list (list string) :=
  [ Args (remoteAddCommand repoInfo);
    Args fetchCommand;
    Args (getSyncCommand config (UpstreamBranch config));
    Args (pushCommand config) ].

(** A command of the log after which [syncUpstream] goes on: it succeeded,
    or it is the remote-add and the error made of its failure says that the
    remote is there already. *)
Definition passed (repoInfo : RepoInfo) (x : list string * string * option error) : Prop :=
  match x with
  | (args, out, None) => True
  | (args, out, Some e) =>
      args = Args (remoteAddCommand repoInfo)
      /\ strings.Contains (commandError (remoteAddCommand repoInfo) e out)
                          "remote upstream already exists" = true
  end.

(** A command of the log that succeeded. *)
Definition succeeded (x : list string * string * option error) : Prop :=
  snd x = None.

(** The abort hint that goes with the strategy of [config]. *)
Definition abortHint (config : AppConfig) : string :=
  if Rebase config then "git rebase --abort" else "git merge --abort".

(** The error line of a failed command. *)
Definition errorLine (cmd : GitCommand) (e : error) (out : string) : string :=
  "✗ Error while " ++ commandError cmd e out ++ LF.

(** The line that tells how to abort a failed integration. *)
Definition abortLine (config : AppConfig) : string :=
  (if Rebase config then "To abort the rebase, run: git rebase --abort"
   else "To abort the merge, run: git merge --abort") ++ LF.

(** The line that confirms the integration. *)
Definition syncedLine (config : AppConfig) : string :=
  if Rebase config then "✓ Rebased onto upstream/" ++ UpstreamBranch config ++ LF
  else "✓ Merged upstream/" ++ UpstreamBranch config ++ LF.

(** The five ways in which [syncUpstream] ends, each with the events it
    leaves: the remote-add failed for good, the fetch failed, the
    integration failed, the push failed, or all is done.  That these are
    the runs of the code is [syncUpstream_runs] below. *)
Inductive syncRun (config : AppConfig) (repoInfo : RepoInfo) (gitBin : string)
  : flow unit -> list event -> Prop :=
| RemoteAddFatal (o1 : string) (e1 : error) :
    strings.Contains (commandError (remoteAddCommand repoInfo) e1 o1)
                     "remote upstream already exists" = false ->
    syncRun config repoInfo gitBin Return
      [ Executed gitBin (Args (remoteAddCommand repoInfo)) o1 (Some e1);
        Printed (errorLine (remoteAddCommand repoInfo) e1 o1) ]
| FetchFailed (o1 : string) (e1 : option error) (o2 : string) (e2 : error) :
    passed repoInfo (Args (remoteAddCommand repoInfo), o1, e1) ->
    syncRun config repoInfo gitBin Return
      [ Executed gitBin (Args (remoteAddCommand repoInfo)) o1 e1;
        Executed gitBin (Args fetchCommand) o2 (Some e2);
        Printed (errorLine fetchCommand e2 o2) ]
| SyncFailed (o1 : string) (e1 : option error) (o2 o3 : string) (e3 : error) :
    passed repoInfo (Args (remoteAddCommand repoInfo), o1, e1) ->
    syncRun config repoInfo gitBin Return
      [ Executed gitBin (Args (remoteAddCommand repoInfo)) o1 e1;
        Executed gitBin (Args fetchCommand) o2 None;
        Printed ("✓ Fetched upstream" ++ LF);
        Executed gitBin (Args (getSyncCommand config (UpstreamBranch config))) o3 (Some e3);
        Printed (errorLine (getSyncCommand config (UpstreamBranch config)) e3 o3);
        Printed (abortLine config) ]
| PushFailed (o1 : string) (e1 : option error) (o2 o3 o4 : string) (e4 : error) :
    passed repoInfo (Args (remoteAddCommand repoInfo), o1, e1) ->
    syncRun config repoInfo gitBin Return
      [ Executed gitBin (Args (remoteAddCommand repoInfo)) o1 e1;
        Executed gitBin (Args fetchCommand) o2 None;
        Printed ("✓ Fetched upstream" ++ LF);
        Executed gitBin (Args (getSyncCommand config (UpstreamBranch config))) o3 None;
        Printed (syncedLine config);
        Executed gitBin (Args (pushCommand config)) o4 (Some e4);
        Printed (errorLine (pushCommand config) e4 o4) ]
| SyncDone (o1 : string) (e1 : option error) (o2 o3 o4 : string) :
    passed repoInfo (Args (remoteAddCommand repoInfo), o1, e1) ->
    syncRun config repoInfo gitBin (Next tt)
      [ Executed gitBin (Args (remoteAddCommand repoInfo)) o1 e1;
        Executed gitBin (Args fetchCommand) o2 None;
        Printed ("✓ Fetched upstream" ++ LF);
        Executed gitBin (Args (getSyncCommand config (UpstreamBranch config))) o3 None;
        Printed (syncedLine config);
        Executed gitBin (Args (pushCommand config)) o4 None;
        Printed ("✓ Pushed to origin/" ++ OriginBranch config ++ LF) ].

(** The events before [syncUpstream] when everything before it succeeds. *)
Definition setupLog (out path : string) (info : RepoInfo) (gitBin : string)
  : list event :=
  [ NewRESTClient None;
    Executed "git" ["remote"; "get-url"; "origin"] out None;
    ApiGet path info None;
    Printed ("✓ Detected fork: " ++ FullName info ++ " (parent: "
             ++ ParentFullName (Parent info) ++ ")" ++ LF);
    LookedPath "git" gitBin None ].

(** A log in which no command was run but the query for the origin URL. *)
Definition setupOnly (pre : list event) : Prop :=
  forall args out err,
    In (args, out, err) (executedOf pre) -> args = ["remote"; "get-url"; "origin"].

(** The six lines of the dry run, as events. *)
Definition dryRunLog (config : AppConfig) (parentCloneURL : string) : list event :=
  [ Printed ("Note: The following commands are examples. The actual upstream URL will be taken from your fork's parent repository." ++ LF);
    Printed ("Dry run mode - commands that would be executed:" ++ LF);
    Printed ("Would run: git remote add upstream " ++ parentCloneURL ++ LF);
    Printed ("Would run: git fetch upstream" ++ LF);
    Printed ("Would run: git " ++ (if Rebase config then "rebase" else "merge")
              ++ " upstream/" ++ UpstreamBranch config ++ LF);
    Printed ("Would run: git " ++ (if ForcePush config then "push -f" else "push")
              ++ " origin HEAD:" ++ OriginBranch config ++ LF) ].

(** The integration line of the dry run: the fifth line that
    [printDryRun] writes. *)
Definition projectedSyncLine (config : AppConfig) : option string :=
  nth_error (printedOf (dryRunLog config "https://github.com/upstream/repo.git")) 4.

(** The line that the dry run would have to write to show the command
    that a real run executes. *)
Definition realSyncLine (config : AppConfig) : string :=
  "Would run: " ++ commandLine (getSyncCommand config (UpstreamBranch config)) ++ LF.

(** ** The runs of the whole program *)

(** The URL that [main] hands to [printDryRun]. *)
Definition placeholderURL : string := "https://github.com/upstream/repo.git".

(** The path of the one request to the hosting API. *)
Definition repoPath (owner repoName : string) : string :=
  "repos/" ++ owner ++ "/" ++ repoName.

(** The eight ways in which [main] ends, each with the events it leaves:
    the dry run; no API client; the origin URL not obtained; the origin URL
    not parsed; no metadata; not a fork; no git executable; and the runs of
    [syncUpstream].  [TrimSpace] is the trimming that [GetOriginRepo]
    applies.  That these are the runs of the code is [main_mainRun]. *)
Inductive mainRun (TrimSpace : string -> string) (config : AppConfig)
  : flow unit -> list event -> Prop :=
| RunDry :
    DryRun config = true ->
    mainRun TrimSpace config Return (dryRunLog config placeholderURL)
| RunNoClient (e : error) :
    DryRun config = false ->
    mainRun TrimSpace config Return
      [ NewRESTClient (Some e); Printed ("✗ Error: " ++ e ++ LF) ]
| RunNoOrigin (out : string) (e : error) :
    DryRun config = false ->
    mainRun TrimSpace config Return
      [ NewRESTClient None;
        Executed "git" ["remote"; "get-url"; "origin"] out (Some e);
        Printed ("✗ Error: " ++ ("failed to get origin remote: " ++ e) ++ LF) ]
| RunBadURL (out owner repo : string) (e : error) :
    DryRun config = false ->
    parseOriginURL (TrimSpace out) = Normal (owner, repo, Some e) ->
    mainRun TrimSpace config Return
      [ NewRESTClient None;
        Executed "git" ["remote"; "get-url"; "origin"] out None;
        Printed ("✗ Error: " ++ e ++ LF) ]
| RunNoInfo (out owner repo : string) (info : RepoInfo) (e : error) :
    DryRun config = false ->
    parseOriginURL (TrimSpace out) = Normal (owner, repo, None) ->
    mainRun TrimSpace config Return
      [ NewRESTClient None;
        Executed "git" ["remote"; "get-url"; "origin"] out None;
        ApiGet (repoPath owner repo) info (Some e);
        Printed ("✗ Error: " ++ ("failed to get repo info: " ++ e) ++ LF) ]
| RunNotFork (out owner repo : string) (info : RepoInfo) :
    DryRun config = false ->
    parseOriginURL (TrimSpace out) = Normal (owner, repo, None) ->
    Fork info = false ->
    mainRun TrimSpace config Return
      [ NewRESTClient None;
        Executed "git" ["remote"; "get-url"; "origin"] out None;
        ApiGet (repoPath owner repo) info None;
        Printed ("✗ " ++ ("repository " ++ FullName info ++ " isn't a fork") ++ LF) ]
| RunNoGit (out owner repo : string) (info : RepoInfo) (path : string) (e : error) :
    DryRun config = false ->
    parseOriginURL (TrimSpace out) = Normal (owner, repo, None) ->
    Fork info = true ->
    mainRun TrimSpace config Return
      [ NewRESTClient None;
        Executed "git" ["remote"; "get-url"; "origin"] out None;
        ApiGet (repoPath owner repo) info None;
        Printed ("✓ Detected fork: " ++ FullName info ++ " (parent: "
                 ++ ParentFullName (Parent info) ++ ")" ++ LF);
        LookedPath "git" path (Some e);
        Printed ("✗ Error while looking for git: " ++ e ++ LF) ]
| RunSync (out owner repo : string) (info : RepoInfo) (gitBin : string)
          (r : flow unit) (t : list event) :
    DryRun config = false ->
    parseOriginURL (TrimSpace out) = Normal (owner, repo, None) ->
    Fork info = true ->
    syncRun config info gitBin r t ->
    mainRun TrimSpace config r
      (setupLog out (repoPath owner repo) info gitBin ++ t)%list.

(** The messages that begin with the cross mark.  A message is the text
    that one call of [fmt.Printf] or [fmt.Println] wrote; it may span
    several lines of the output, an error message holding the output of the
    command that failed. *)
Definition crossMessages (log : list event) : list string :=
  List.filter (fun text => strings.HasPrefix text "✗") (printedOf log).

(** The line that confirms the push. *)
Definition pushedLine (config : AppConfig) : string :=
  "✓ Pushed to origin/" ++ OriginBranch config ++ LF.

(** The phrase by which [main] recognises a remote that is there already. *)
Definition alreadyExists : string := "remote upstream already exists".

(** ** Scenarios: scripted worlds in which any step may fail *)

Record scenario := {
  clientError : option error;             (** of [api.DefaultRESTClient()] *)
  originResult : string * option error;   (** of [git remote get-url origin] *)
  metadata : RepoInfo * option error;     (** of [client.Get] *)
  gitLookup : string * option error;      (** of [safeexec.LookPath("git")] *)
  (** output and error of the commands that fail, by first argument *)
  commandFails : string -> option (string * error)
}.

Definition scenarioExec (sc : scenario) (name : string) (args : list string) (w : unit)
  : (string * option error) * unit :=
  if argsEqb args ["remote"; "get-url"; "origin"] then (originResult sc, w)
  else match args with
       | verb :: _ =>
           match commandFails sc verb with
           | Some (out, e) => ((out, Some e), w)
           | None => (("", None), w)
           end
       | [] => (("", None), w)
       end.

Definition scenarioMain (sc : scenario) (config : AppConfig) : M unit unit :=
  main unit (scenarioExec sc)
       (fun w => (clientError sc, w))
       (fun _ w => (metadata sc, w))
       (fun _ w => (gitLookup sc, w))
       strings.TrimSpaceASCII
       config.

Definition scenarioLog (sc : scenario) (config : AppConfig) : list event :=
  snd (scenarioMain sc config tt).

(** The fork [me/stream] with everything succeeding. *)
Definition healthy : scenario := {|
  clientError := None;
  originResult := ("git@github.com:me/stream.git" ++ LF, None);
  metadata := (fst (apiResponse forkScript), None);
  gitLookup := ("/usr/bin/git", None);
  commandFails := fun _ => None
|}.

(** The same, but the hosting API says that [me/stream] is no fork. *)
Definition notAFork : scenario := {|
  clientError := None;
  originResult := originResult healthy;
  metadata := ({| FullName := "me/stream"; Fork := false;
                  Parent := {| ParentFullName := ""; CloneURL := "" |} |}, None);
  gitLookup := gitLookup healthy;
  commandFails := fun _ => None
|}.

(** The same as [healthy], but there is no remote named origin. *)
Definition noOrigin : scenario := {|
  clientError := None;
  originResult := ("error: No such remote 'origin'" ++ LF, Some "exit status 2");
  metadata := metadata healthy;
  gitLookup := gitLookup healthy;
  commandFails := fun _ => None
|}.

(** The same as [healthy], but git is not found. *)
Definition noGit : scenario := {|
  clientError := None;
  originResult := originResult healthy;
  metadata := metadata healthy;
  gitLookup := ("", Some "executable file not found in $PATH");
  commandFails := fun _ => None
|}.

(** The same as [healthy], but the commands whose first argument is [verb]
    fail with the output [out]. *)
Definition breaking (verb out : string) : scenario := {|
  clientError := None;
  originResult := originResult healthy;
  metadata := metadata healthy;
  gitLookup := gitLookup healthy;
  commandFails := fun v => if String.eqb v verb then Some (out, "exit status 1") else None
|}.

(** The same as [healthy], but the hosting API cannot be reached. *)
Definition noMetadata : scenario := {|
  clientError := None;
  originResult := originResult healthy;
  metadata := (fst (metadata healthy), Some "HTTP 404: Not Found");
  gitLookup := gitLookup healthy;
  commandFails := fun _ => None
|}.

(** The same as [healthy], but no API client can be made. *)
Definition noClient : scenario := {|
  clientError := Some "authentication token not found";
  originResult := originResult healthy;
  metadata := metadata healthy;
  gitLookup := gitLookup healthy;
  commandFails := fun _ => None
|}.

(** * Facts about the string functions *)

Module stringsFacts.
Import strings.

Lemma append_empty_r (s : string) : s ++ "" = s.
Proof. induction s as [|c s IH]; simpl; [reflexivity | now rewrite IH]. Qed.

Lemma append_assoc (a b c : string) : (a ++ b) ++ c = a ++ (b ++ c).
Proof. induction a as [|x a IH]; simpl; [reflexivity | now rewrite IH]. Qed.

Lemma length_append (a b : string) :
  String.length (a ++ b) = String.length a + String.length b.
Proof. induction a as [|x a IH]; simpl; [reflexivity | now rewrite IH]. Qed.

Lemma prefix_cons (c d : ascii) (p s : string) :
  String.prefix (String c p) (String d s) = true <-> c = d /\ String.prefix p s = true.
Proof.
  simpl. destruct (ascii_dec c d) as [->|Hne].
  - tauto.
  - split; [discriminate | intros [H _]; contradiction].
Qed.

Lemma prefix_length (p s : string) :
  String.prefix p s = true -> String.length p <= String.length s.
Proof.
  revert s; induction p as [|c p IH]; intros s H; simpl; [lia|].
  destruct s as [|d s]; [discriminate|].
  apply prefix_cons in H as [_ H]. apply IH in H. simpl. lia.
Qed.

Lemma prefix_app (p s : string) :
  String.prefix p s = true -> s = p ++ drop (String.length p) s.
Proof.
  revert s; induction p as [|c p IH]; intros s H; simpl; [reflexivity|].
  destruct s as [|d s]; [discriminate|].
  apply prefix_cons in H as [-> H]. now rewrite <- (IH s H).
Qed.

Lemma prefix_of_app (p t : string) : String.prefix p (p ++ t) = true.
Proof.
  induction p as [|c p IH]; simpl.
  - now destruct t.
  - destruct (ascii_dec c c); [exact IH | contradiction].
Qed.

(** Once [s] is at least as long as [p], what follows [s] does not matter. *)
Lemma prefix_app_long (p s t : string) :
  String.length p <= String.length s ->
  String.prefix p (s ++ t) = String.prefix p s.
Proof.
  revert s; induction p as [|c p IH]; intros s Hlen.
  - destruct s; simpl; now destruct t.
  - destruct s as [|d s]; simpl in Hlen; [lia|].
    simpl. destruct (ascii_dec c d); [apply IH; lia | reflexivity].
Qed.

Lemma prefix_take (p s : string) (n : nat) :
  String.prefix p (take n s) = true -> String.prefix p s = true.
Proof.
  revert s n; induction p as [|c p IH]; intros s n H.
  - now destruct s.
  - destruct n as [|n], s as [|d s]; try discriminate.
    simpl take in H. apply prefix_cons in H as [-> H].
    apply prefix_cons. split; [reflexivity | eapply IH; eassumption].
Qed.

Lemma take_drop (n : nat) (s : string) : take n s ++ drop n s = s.
Proof.
  revert s; induction n as [|n IH]; intros [|c s]; simpl; try reflexivity.
  now rewrite IH.
Qed.

Lemma take_app (n : nat) (s t : string) :
  n <= String.length s -> take n (s ++ t) = take n s.
Proof.
  revert s; induction n as [|n IH]; intros s H; [reflexivity|].
  destruct s as [|c s]; simpl in *; [lia|]. rewrite IH; [reflexivity | lia].
Qed.

Lemma drop_app (n : nat) (s t : string) :
  n <= String.length s -> drop n (s ++ t) = drop n s ++ t.
Proof.
  revert s; induction n as [|n IH]; intros s H; [reflexivity|].
  destruct s as [|c s]; simpl in *; [lia|]. apply IH; lia.
Qed.

Lemma take_length_app (s t : string) : take (String.length s) (s ++ t) = s.
Proof. induction s as [|c s IH]; simpl; [now destruct t | now rewrite IH]. Qed.

Lemma drop_length_app (s t : string) : drop (String.length s) (s ++ t) = t.
Proof. induction s as [|c s IH]; simpl; [reflexivity | exact IH]. Qed.

Lemma drop_drop (n m : nat) (s : string) : drop n (drop m s) = drop (m + n) s.
Proof.
  revert s; induction m as [|m IH]; intros s; [reflexivity|].
  destruct s as [|c s]; simpl; [now destruct n | apply IH].
Qed.

Lemma length_drop (n : nat) (s : string) :
  String.length (drop n s) = String.length s - n.
Proof.
  revert s; induction n as [|n IH]; intros [|c s]; simpl; try lia. apply IH.
Qed.

(** ** [Index] *)

Lemma Index_empty (sub : string) :
  Index "" sub = if String.prefix sub "" then Some 0 else None.
Proof. reflexivity. Qed.

Lemma Index_cons (c : ascii) (s sub : string) :
  Index (String c s) sub =
    if String.prefix sub (String c s) then Some 0
    else option_map S (Index s sub).
Proof. reflexivity. Qed.

Lemma Index_bound (s sub : string) (m : nat) :
  Index s sub = Some m -> m + String.length sub <= String.length s.
Proof.
  revert m; induction s as [|c s IH]; intros m;
    [rewrite Index_empty | rewrite Index_cons].
  - destruct (String.prefix sub "") eqn:Hp; [|discriminate].
    intros [= <-]. apply prefix_length in Hp. simpl in *; lia.
  - destruct (String.prefix sub (String c s)) eqn:Hp.
    + intros [= <-]. apply prefix_length in Hp. simpl in *; lia.
    + destruct (Index s sub) as [m'|]; [|discriminate].
      intros [= <-]. specialize (IH m' eq_refl). simpl; lia.
Qed.

(** At the position found, [sub] occurs. *)
Lemma Index_occurs (s sub : string) (m : nat) :
  Index s sub = Some m ->
  s = take m s ++ sub ++ drop (m + String.length sub) s.
Proof.
  revert m; induction s as [|c s IH]; intros m;
    [rewrite Index_empty | rewrite Index_cons].
  - destruct (String.prefix sub "") eqn:Hp; [|discriminate].
    intros [= <-]. destruct sub; [reflexivity | discriminate].
  - destruct (String.prefix sub (String c s)) eqn:Hp.
    + intros [= <-]. simpl take. simpl. now apply prefix_app.
    + destruct (Index s sub) as [m'|]; [|discriminate].
      intros [= <-]. simpl. f_equal. now apply IH.
Qed.

(** Before the position found, a non-empty [sub] does not occur. *)
Lemma Index_first (s sub : string) (m : nat) :
  sub <> "" -> Index s sub = Some m -> Index (take m s) sub = None.
Proof.
  intros Hne. revert m; induction s as [|c s IH]; intros m;
    [rewrite Index_empty | rewrite Index_cons].
  - destruct (String.prefix sub "") eqn:Hp; [|discriminate].
    destruct sub; [contradiction | discriminate].
  - destruct (String.prefix sub (String c s)) eqn:Hp.
    + intros [= <-]. simpl. destruct sub; [contradiction | reflexivity].
    + destruct (Index s sub) as [m'|] eqn:Hi; [|discriminate].
      intros [= <-]. simpl take. rewrite Index_cons.
      destruct (String.prefix sub (String c (take m' s))) eqn:Hq.
      * apply (prefix_take sub (String c s) (S m')) in Hq. congruence.
      * now rewrite (IH m' eq_refl).
Qed.

(** An occurrence is still the first one when text is appended. *)
Lemma Index_app (s t sub : string) (m : nat) :
  Index s sub = Some m -> Index (s ++ t) sub = Some m.
Proof.
  revert m; induction s as [|c s IH]; intros m;
    [rewrite Index_empty | rewrite Index_cons].
  - destruct (String.prefix sub "") eqn:Hp; [|discriminate].
    intros [= <-]. destruct sub; [|discriminate]. now destruct t.
  - destruct (String.prefix sub (String c s)) eqn:Hp.
    + intros [= <-]. change (String c s ++ t) with (String c (s ++ t)).
      rewrite Index_cons.
      change (String c (s ++ t)) with (String c s ++ t).
      rewrite prefix_app_long by now apply prefix_length.
      now rewrite Hp.
    + destruct (Index s sub) as [m'|] eqn:Hi; [|discriminate].
      intros [= <-].
      assert (Hlen : String.length sub <= String.length (String c s)).
      { apply Index_bound in Hi. simpl. lia. }
      change (String c s ++ t) with (String c (s ++ t)).
      rewrite Index_cons.
      change (String c (s ++ t)) with (String c s ++ t).
      rewrite (prefix_app_long sub (String c s) t Hlen), Hp.
      now rewrite (IH m' eq_refl).
Qed.

(** An occurrence that ends inside [s] is an occurrence in [s]. *)
Lemma Index_app_inv (s t sub : string) (m : nat) :
  Index (s ++ t) sub = Some m ->
  m + String.length sub <= String.length s ->
  Index s sub = Some m.
Proof.
  revert m; induction s as [|c s IH]; intros m Hi Hlen.
  - simpl in Hlen. assert (m = 0) as -> by lia.
    destruct sub; [reflexivity | simpl in Hlen; lia].
  - change (String c s ++ t) with (String c (s ++ t)) in Hi.
    rewrite Index_cons in Hi. rewrite Index_cons.
    change (String c (s ++ t)) with (String c s ++ t) in Hi.
    destruct (String.prefix sub (String c s ++ t)) eqn:Hp.
    + injection Hi as <-.
      rewrite prefix_app_long in Hp by (simpl in *; lia). now rewrite Hp.
    + destruct (String.prefix sub (String c s)) eqn:Hq.
      * rewrite prefix_app_long in Hp by now apply prefix_length.
        congruence.
      * destruct (Index (s ++ t) sub) as [m'|] eqn:Hi'; [|discriminate].
        injection Hi as <-.
        rewrite (IH m' eq_refl); [reflexivity | simpl in Hlen; lia].
Qed.

Lemma length_take (n : nat) (s : string) :
  n <= String.length s -> String.length (take n s) = n.
Proof.
  revert s; induction n as [|n IH]; intros [|c s] H; simpl in *;
    try reflexivity; try lia.
  rewrite IH; [reflexivity | lia].
Qed.

Lemma get_app_r (s t : string) (n : nat) :
  String.length s <= n -> String.get n (s ++ t) = String.get (n - String.length s) t.
Proof.
  intros H. rewrite (append_correct2 s t (n - String.length s)).
  f_equal. lia.
Qed.

(** The last byte of an occurrence found at [m]. *)
Lemma Index_last_byte (s sub : string) (c : ascii) (m : nat) :
  Index s (sub ++ String c "") = Some m ->
  String.get (m + String.length sub) s = Some c.
Proof.
  intros Hi. pose proof (Index_bound _ _ _ Hi) as Hb.
  apply Index_occurs in Hi. rewrite Hi at 1.
  rewrite get_app_r by (rewrite length_take; lia).
  rewrite length_take by lia.
  replace (m + String.length sub - m) with (String.length sub) by lia.
  rewrite append_assoc.
  rewrite get_app_r by lia. now rewrite Nat.sub_diag.
Qed.

(** An occurrence that ends with a byte foreign to [t] ends inside [s]. *)
Lemma Index_app_inside (s t sub : string) (c : ascii) (m : nat) :
  (forall k, String.get k t <> Some c) ->
  Index (s ++ t) (sub ++ String c "") = Some m ->
  m + String.length (sub ++ String c "") <= String.length s.
Proof.
  intros Hfree Hi. rewrite length_append. simpl.
  destruct (Nat.le_gt_cases (String.length s) (m + String.length sub))
    as [Hout|Hin]; [|lia].
  apply Index_last_byte in Hi. rewrite get_app_r in Hi by exact Hout.
  now apply Hfree in Hi.
Qed.

Lemma Index_nonempty (s sub : string) (m : nat) :
  sub <> "" -> Index s sub = Some m -> 1 <= String.length s.
Proof.
  intros Hne Hi. apply Index_bound in Hi.
  destruct sub; [contradiction | simpl in Hi; lia].
Qed.

(** ** [SplitN] with a limit of two *)

Lemma SplitN_2 (s sep : string) :
  sep <> "" ->
  SplitN s sep 2 =
    match Index s sep with
    | Some m => [take m s; drop (m + String.length sep) s]
    | None => [s]
    end.
Proof.
  intros Hne. unfold SplitN.
  destruct (Index s sep) as [m|] eqn:Hi.
  - pose proof (Index_nonempty s sep m Hne Hi) as Hlen.
    replace (Nat.min 2 (S (String.length s)) - 1) with 1 by lia.
    simpl. now rewrite Hi.
  - destruct (Nat.min 2 (S (String.length s)) - 1); simpl; [reflexivity|].
    now rewrite Hi.
Qed.

(** ** Suffixes *)

Lemma HasSuffix_app (a suf : string) : HasSuffix (a ++ suf) suf = true.
Proof.
  unfold HasSuffix. rewrite length_append.
  replace (String.length a + String.length suf - String.length suf)
    with (String.length a) by lia.
  rewrite drop_length_app, String.eqb_refl.
  rewrite andb_true_r. apply Nat.leb_le. lia.
Qed.

Lemma HasSuffix_inv (s suf : string) :
  HasSuffix s suf = true ->
  s = take (String.length s - String.length suf) s ++ suf.
Proof.
  unfold HasSuffix. intros H. apply andb_true_iff in H as [_ H].
  apply String.eqb_eq in H.
  transitivity (take (String.length s - String.length suf) s
                ++ drop (String.length s - String.length suf) s).
  - symmetry. apply take_drop.
  - now rewrite H.
Qed.

(** A suffix of a suffix of [s] is a suffix of [s]. *)
Lemma HasSuffix_drop (n : nat) (s suf : string) :
  n + String.length suf <= String.length s ->
  HasSuffix (drop n s) suf = HasSuffix s suf.
Proof.
  intros Hlen. unfold HasSuffix.
  rewrite length_drop, drop_drop.
  replace (n + (String.length s - n - String.length suf))
    with (String.length s - String.length suf) by lia.
  f_equal.
  destruct (Nat.leb_spec (String.length suf) (String.length s - n));
    destruct (Nat.leb_spec (String.length suf) (String.length s));
    (reflexivity || lia).
Qed.

Lemma HasSuffix_of_drop (n : nat) (s suf : string) :
  0 < String.length suf ->
  HasSuffix (drop n s) suf = true -> HasSuffix s suf = true.
Proof.
  intros Hpos H. rewrite <- (HasSuffix_drop n s suf); [exact H|].
  unfold HasSuffix in H. apply andb_true_iff in H as [H _].
  apply Nat.leb_le in H. rewrite length_drop in H. lia.
Qed.

Lemma TrimSuffix_none (s suf : string) :
  HasSuffix s suf = false -> TrimSuffix s suf = s.
Proof. unfold TrimSuffix. now intros ->. Qed.

(** ** Prefixes of an extended string *)

Lemma HasPrefix_app (s t pre : string) :
  HasPrefix s pre = true -> HasPrefix (s ++ t) pre = true.
Proof.
  unfold HasPrefix. intros H.
  rewrite prefix_app_long; [exact H | now apply prefix_length].
Qed.

(** A string that is too short to hold [pre], and whose extension
    starts with [pre], is itself the beginning of [pre]. *)
Lemma prefix_short (s t pre : string) :
  String.prefix pre (s ++ t) = true ->
  String.length s <= String.length pre ->
  s = take (String.length s) pre.
Proof.
  revert pre; induction s as [|c s IH]; intros pre H Hlen; [reflexivity|].
  destruct pre as [|d pre]; simpl in Hlen; [lia|].
  change (String c s ++ t) with (String c (s ++ t)) in H.
  apply prefix_cons in H as [-> H].
  simpl. f_equal. apply IH; [exact H | lia].
Qed.

Lemma TrimSuffix_app (a suf : string) : TrimSuffix (a ++ suf) suf = a.
Proof.
  unfold TrimSuffix. rewrite HasSuffix_app, length_append.
  replace (String.length a + String.length suf - String.length suf)
    with (String.length a) by lia.
  apply take_length_app.
Qed.

End stringsFacts.

(** * The remote URL parser *)

Section Parser.
Import strings stringsFacts.

Let slash_nonempty : "/" <> "". Proof. discriminate. Qed.
Let host_nonempty : "github.com/" <> "". Proof. discriminate. Qed.

(** The slice [parts], through [originPath] and [Index]. *)
Lemma originParts_eq (url : string) :
  originParts url =
    match originPath url with
    | None => Normal None
    | Some path =>
        match Index path "/" with
        | Some m => Normal (Some [take m path; drop (m + 1) path])
        | None => Normal (Some [path])
        end
    end.
Proof.
  unfold originParts, originPath, TrimPrefix, Contains.
  destruct (HasPrefix url "git@github.com:").
  - rewrite (SplitN_2 _ _ slash_nonempty).
    now destruct (Index _ "/").
  - destruct (Index url "github.com/") as [m|] eqn:Hi; [|reflexivity].
    rewrite (SplitN_2 _ _ host_nonempty), Hi.
    cbn [index_at nth_error].
    rewrite (SplitN_2 _ _ slash_nonempty).
    now destruct (Index _ "/").
Qed.

(** What [GetOriginRepo] returns for a trimmed URL, case by case. *)
Lemma parseOriginURL_eq (url : string) :
  parseOriginURL url =
    match originPath url with
    | None => Normal ("", "", Some ("unsupported origin URL format: " ++ url))
    | Some path =>
        match Index path "/" with
        | Some m => Normal (take m path, TrimSuffix (drop (m + 1) path) ".git", None)
        | None => Normal ("", "", Some ("failed to parse owner/repo from URL: " ++ url))
        end
    end.
Proof.
  unfold parseOriginURL. rewrite originParts_eq.
  destruct (originPath url) as [path|]; [|reflexivity].
  now destruct (Index path "/").
Qed.

Lemma parseOriginURL_total (url : string) : parseOriginURL url <> Panic.
Proof.
  rewrite parseOriginURL_eq.
  destruct (originPath url) as [path|]; [|discriminate].
  destruct (Index path "/"); discriminate.
Qed.

(** No beginning of the SSH prefix holds the marker of the other shape. *)
Lemma ssh_prefix_has_no_host (k : nat) :
  Index (take k "git@github.com:") "github.com/" = None.
Proof.
  do 16 (destruct k as [|k]; [reflexivity|]). reflexivity.
Qed.

(** Appending text to a URL of a supported shape appends it to the path. *)
Lemma originPath_app (url path t : string) :
  originPath url = Some path -> originPath (url ++ t) = Some (path ++ t).
Proof.
  unfold originPath.
  destruct (HasPrefix url "git@github.com:") eqn:Hssh.
  - intros [= <-]. rewrite (HasPrefix_app _ t _ Hssh).
    rewrite drop_app; [reflexivity | now apply prefix_length in Hssh].
  - destruct (Index url "github.com/") as [m|] eqn:Hi; [|discriminate].
    intros [= <-].
    destruct (HasPrefix (url ++ t) "git@github.com:") eqn:Hssh'.
    + exfalso. unfold HasPrefix in Hssh, Hssh'.
      destruct (Nat.le_gt_cases (String.length "git@github.com:") (String.length url))
        as [Hlong|Hshort].
      * rewrite prefix_app_long in Hssh' by exact Hlong. congruence.
      * apply prefix_short in Hssh'; [|lia].
        rewrite Hssh', ssh_prefix_has_no_host in Hi. discriminate.
    + rewrite (Index_app _ t _ _ Hi).
      rewrite drop_app; [reflexivity | now apply Index_bound in Hi].
Qed.

(** The name is read off a path that ends in ".git" as off the path
    without it, when that one does not end in ".git" itself. *)
Lemma parse_path_git (path : string) (m : nat) :
  Index path "/" = Some m ->
  HasSuffix path ".git" = false ->
  Index (path ++ ".git") "/" = Some m
  /\ take m (path ++ ".git") = take m path
  /\ TrimSuffix (drop (m + 1) (path ++ ".git")) ".git"
     = TrimSuffix (drop (m + 1) path) ".git".
Proof.
  intros Hi Hsuf. pose proof (Index_bound _ _ _ Hi) as Hb. simpl in Hb.
  split; [now apply Index_app|].
  split; [apply take_app; lia|].
  rewrite drop_app by lia. rewrite TrimSuffix_app.
  symmetry. apply TrimSuffix_none.
  destruct (HasSuffix (drop (m + 1) path) ".git") eqn:H; [|reflexivity].
  apply HasSuffix_of_drop in H; [congruence | simpl; lia].
Qed.

Lemma git_has_no_slash (k : nat) : String.get k ".git" <> Some "/"%char.
Proof. do 4 (destruct k as [|k]; [discriminate|]). discriminate. Qed.

(** A slash found once ".git" is appended was there before. *)
Lemma Index_slash_git (s sub : string) (m : nat) :
  Index (s ++ ".git") (sub ++ "/") = Some m -> Index s (sub ++ "/") = Some m.
Proof.
  intros Hi. apply (Index_app_inv s ".git"); [exact Hi|].
  exact (Index_app_inside s ".git" sub "/"%char m git_has_no_slash Hi).
Qed.

(** What follows a beginning of the SSH prefix and ".git" holds no slash. *)
Lemma short_ssh_has_no_path (k : nat) :
  Index (drop (String.length "git@github.com:")
              (take k "git@github.com:" ++ ".git")) "/" = None.
Proof.
  do 16 (destruct k as [|k]; [reflexivity|]). reflexivity.
Qed.

(** Appending ".git" does not turn an unsupported URL into one with an
    owner and a name. *)
Lemma originPath_git_inv (url path : string) :
  originPath url = None ->
  originPath (url ++ ".git") = Some path ->
  Index path "/" = None.
Proof.
  unfold originPath.
  destruct (HasPrefix url "git@github.com:") eqn:Hssh; [discriminate|].
  destruct (Index url "github.com/") as [j|] eqn:Hj; [discriminate|].
  intros _.
  destruct (HasPrefix (url ++ ".git") "git@github.com:") eqn:Hssh'.
  - unfold HasPrefix in Hssh, Hssh'.
    destruct (Nat.le_gt_cases (String.length "git@github.com:") (String.length url))
      as [Hlong|Hshort].
    + rewrite prefix_app_long in Hssh' by exact Hlong. congruence.
    + apply prefix_short in Hssh'; [|lia].
      intros H. assert (Hp : path = drop (String.length "git@github.com:")
                                         (url ++ ".git")) by congruence.
      rewrite Hp, Hssh'. apply short_ssh_has_no_path.
  - destruct (Index (url ++ ".git") "github.com/") as [j|] eqn:Hj'; [|discriminate].
    apply (Index_slash_git url "github.com") in Hj'.
    change (Index url "github.com/" = Some j) in Hj'. congruence.
Qed.

(** The path is an end of the URL. *)
Lemma originPath_drop (url path : string) :
  originPath url = Some path -> exists k, path = drop k url.
Proof.
  unfold originPath.
  destruct (HasPrefix url "git@github.com:").
  - intros H. exists (String.length "git@github.com:"). congruence.
  - destruct (Index url "github.com/") as [m|]; [|discriminate].
    intros H. exists (m + String.length "github.com/"). congruence.
Qed.

Lemma originPath_suffix (url path suf : string) :
  0 < String.length suf ->
  originPath url = Some path ->
  HasSuffix url suf = false -> HasSuffix path suf = false.
Proof.
  intros Hpos Hp Hsuf.
  destruct (originPath_drop _ _ Hp) as [k ->].
  destruct (HasSuffix (drop k url) suf) eqn:H; [|reflexivity].
  apply HasSuffix_of_drop in H; [congruence | exact Hpos].
Qed.

End Parser.

Section ParserClaims.
Import strings stringsFacts.

Lemma identityOf_Some (r : outcome (string * string * option error))
      (owner name : string) :
  identityOf r = Some (owner, name) <-> r = Normal (owner, name, None).
Proof.
  destruct r as [[[o n] [e|]]|]; simpl; split; intros H;
    try discriminate; congruence.
Qed.

(** With and without a final ".git", the same owner and name, or none. *)
Lemma identityOf_git (url : string) :
  HasSuffix url ".git" = false ->
  identityOf (parseOriginURL (url ++ ".git")) = identityOf (parseOriginURL url).
Proof.
  intros Hsuf. rewrite !parseOriginURL_eq.
  destruct (originPath url) as [path|] eqn:Hp.
  - rewrite (originPath_app _ _ ".git" Hp).
    assert (Hps : HasSuffix path ".git" = false).
    { apply (originPath_suffix url); [simpl; lia | exact Hp | exact Hsuf]. }
    destruct (Index path "/") as [m|] eqn:Hi.
    + destruct (parse_path_git _ _ Hi Hps) as (-> & -> & ->). reflexivity.
    + destruct (Index (path ++ ".git") "/") as [m|] eqn:Hi'; [|reflexivity].
      apply (Index_slash_git path "") in Hi'.
      change (Index path "/" = Some m) in Hi'. congruence.
  - destruct (originPath (url ++ ".git")) as [path|] eqn:Hp'; [|reflexivity].
    now rewrite (originPath_git_inv _ _ Hp Hp').
Qed.

(** C1, amended: a successful parse means that the text after the host
    marker was cut at its first slash into exactly two parts, the owner
    before it and the rest after it, the name being the rest without a
    final ".git"; and whenever that cut gives fewer than two parts, and
    only then, [GetOriginRepo] fails with the "failed to parse owner/repo" error that
    carries the URL.  (Nothing is said on the parts being non-empty.) *)
Theorem parse_success_two_parts (url : string) :
  (forall owner repo,
      parseOriginURL url = Normal (owner, repo, None) ->
      exists path rest,
        originPath url = Some path
        /\ SplitN path "/" 2 = [owner; rest]
        /\ path = owner ++ "/" ++ rest
        /\ Contains owner "/" = false
        /\ repo = TrimSuffix rest ".git")
  /\ (forall path,
        originPath url = Some path ->
        List.length (SplitN path "/" 2) < 2 ->
        parseOriginURL url
        = Normal ("", "", Some ("failed to parse owner/repo from URL: " ++ url)))
  /\ (parseOriginURL url
      = Normal ("", "", Some ("failed to parse owner/repo from URL: " ++ url)) ->
      exists path,
        originPath url = Some path /\ List.length (SplitN path "/" 2) < 2).
Proof.
  assert (Hslash : "/" <> "") by discriminate.
  split; [|split].
  - intros owner repo. rewrite parseOriginURL_eq.
    destruct (originPath url) as [path|]; [|discriminate].
    destruct (Index path "/") as [m|] eqn:Hi; [|discriminate].
    intros H. exists path, (drop (m + 1) path).
    assert (owner = take m path) as -> by congruence.
    assert (repo = TrimSuffix (drop (m + 1) path) ".git") as -> by congruence.
    split; [reflexivity|].
    split; [now rewrite (SplitN_2 _ _ Hslash), Hi|].
    split; [exact (Index_occurs _ _ _ Hi)|].
    split; [|reflexivity].
    unfold Contains. now rewrite (Index_first _ _ _ Hslash Hi).
  - intros path Hp. rewrite parseOriginURL_eq, Hp, (SplitN_2 _ _ Hslash).
    destruct (Index path "/"); simpl; [lia | reflexivity].
  - rewrite parseOriginURL_eq.
    destruct (originPath url) as [path|]; [|discriminate].
    intros H. exists path. split; [reflexivity|].
    rewrite (SplitN_2 _ _ Hslash).
    destruct (Index path "/"); [discriminate H | simpl; lia].
Qed.

(** C7: for a URL that does not itself end in ".git", parsing the URL
    and parsing it with ".git" appended give the same owner and name; the
    HTTPS and the SSH example both give owner "owner" and name "repo", as
    they do without the suffix. *)
Theorem parse_git_suffix_irrelevant :
  (forall url owner name,
      HasSuffix url ".git" = false ->
      (parseOriginURL (url ++ ".git") = Normal (owner, name, None)
       <-> parseOriginURL url = Normal (owner, name, None)))
  /\ parseOriginURL "https://github.com/owner/repo.git" = Normal ("owner", "repo", None)
  /\ parseOriginURL "git@github.com:owner/repo.git" = Normal ("owner", "repo", None)
  /\ parseOriginURL "https://github.com/owner/repo" = Normal ("owner", "repo", None)
  /\ parseOriginURL "git@github.com:owner/repo" = Normal ("owner", "repo", None).
Proof.
  split; [|repeat split; reflexivity].
  intros url owner name Hsuf.
  rewrite <- !identityOf_Some, (identityOf_git url Hsuf). reflexivity.
Qed.

(** C9: a URL that neither starts with "git@github.com:" nor contains
    "github.com/" is refused with the "unsupported origin URL format"
    error that carries it; no URL makes the parsing panic, the slice
    that the HTTPS branch indexes at 1 having two elements whenever that
    branch is taken. *)
Theorem unsupported_url_rejected (url : string) :
  (HasPrefix url "git@github.com:" = false ->
   Contains url "github.com/" = false ->
   parseOriginURL url
   = Normal ("", "", Some ("unsupported origin URL format: " ++ url)))
  /\ parseOriginURL url <> Panic
  /\ (Contains url "github.com/" = true ->
      exists before path,
        SplitN url "github.com/" 2 = [before; path]
        /\ index_at (SplitN url "github.com/" 2) 1 = Normal path)
  /\ (forall (World : Type)
             (CombinedOutput : string -> list string -> World
                               -> (string * option error) * World)
             (TrimSpace : string -> string) (w : World),
         fst (fst (GetOriginRepo World CombinedOutput TrimSpace w)) <> Panicked).
Proof.
  split; [|split; [|split]].
  - intros Hssh Hhost. rewrite parseOriginURL_eq. unfold originPath, Contains in *.
    rewrite Hssh. now destruct (Index url "github.com/").
  - apply parseOriginURL_total.
  - unfold Contains. destruct (Index url "github.com/") as [m|] eqn:Hi; [|discriminate].
    intros _. rewrite SplitN_2, Hi by discriminate.
    eexists; eexists; split; reflexivity.
  - intros World CombinedOutput TrimSpace w.
    unfold GetOriginRepo, bind, exec_CombinedOutput.
    destruct (CombinedOutput "git" ["remote"; "get-url"; "origin"] w)
      as [[out [e|]] w1]; cbn [ret fst]; [discriminate|].
    pose proof (parseOriginURL_total (TrimSpace out)) as Htotal.
    destruct (parseOriginURL (TrimSpace out)); [|contradiction].
    cbn [liftOutcome ret fst]. discriminate.
Qed.

End ParserClaims.

(** C1 as it was stated does not hold: a URL with nothing between the
    host marker and the first slash parses without error to an empty owner,
    although the cut gave only one non-empty part. *)
Lemma parse_accepts_empty_owner :
  strings.SplitN "/repo" "/" 2 = [""; "repo"]
  /\ parseOriginURL "git@github.com:/repo" = Normal ("", "repo", None)
  /\ ~ (forall url owner repo,
           parseOriginURL url = Normal (owner, repo, None) ->
           owner <> "" /\ repo <> "").
Proof.
  split; [reflexivity|]. split; [reflexivity|].
  intros H. destruct (H "git@github.com:/repo" "" "repo" eq_refl) as [Ho _].
  now apply Ho.
Qed.

Lemma parse_success_two_parts_witness :
  (exists path rest,
      originPath "git@github.com:owner/repo.git" = Some path
      /\ strings.SplitN path "/" 2 = ["owner"; rest]
      /\ path = "owner" ++ "/" ++ rest
      /\ strings.Contains "owner" "/" = false
      /\ "repo" = strings.TrimSuffix rest ".git")
  /\ parseOriginURL "git@github.com:owner"
     = Normal ("", "", Some ("failed to parse owner/repo from URL: " ++ "git@github.com:owner")).
Proof.
  split.
  - apply (proj1 (parse_success_two_parts "git@github.com:owner/repo.git")).
    reflexivity.
  - apply (proj1 (proj2 (parse_success_two_parts "git@github.com:owner")) "owner").
    + reflexivity.
    + vm_compute. lia.
Defined.

Lemma parse_git_suffix_irrelevant_witness :
  parseOriginURL ("git@github.com:owner/repo" ++ ".git") = Normal ("owner", "repo", None).
Proof.
  apply (proj1 parse_git_suffix_irrelevant "git@github.com:owner/repo" "owner" "repo").
  - reflexivity.
  - reflexivity.
Defined.

Lemma unsupported_url_rejected_witness :
  parseOriginURL "ftp://example.com/x"
  = Normal ("", "", Some ("unsupported origin URL format: " ++ "ftp://example.com/x"))
  /\ exists before path,
       strings.SplitN "https://github.com/owner/repo.git" "github.com/" 2 = [before; path]
       /\ index_at (strings.SplitN "https://github.com/owner/repo.git" "github.com/" 2) 1
          = Normal path.
Proof.
  split.
  - apply (proj1 (unsupported_url_rejected "ftp://example.com/x")); reflexivity.
  - apply (proj1 (proj2 (proj2
             (unsupported_url_rejected "https://github.com/owner/repo.git")))).
    reflexivity.
Defined.

(** * The fork validator and the sync command builder *)

Section Builders.
Import strings stringsFacts.

Lemma Index_found (a b c : string) : exists m, Index (a ++ b ++ c) b = Some m.
Proof.
  induction a as [|x a [m IH]].
  - exists 0. simpl (_ ++ _).
    destruct (b ++ c) eqn:E.
    + rewrite Index_empty. destruct b; [reflexivity | discriminate].
    + rewrite Index_cons, <- E, prefix_of_app. reflexivity.
  - change (String x a ++ b ++ c) with (String x (a ++ b ++ c)).
    rewrite Index_cons, IH.
    destruct (String.prefix b (String x (a ++ b ++ c))); eexists; reflexivity.
Qed.

Lemma Contains_infix (a b c : string) : Contains (a ++ b ++ c) b = true.
Proof. unfold Contains. now destruct (Index_found a b c) as [m ->]. Qed.

(** C8: [validateFork] returns an error exactly when the fork flag is
    false, the message contains the full name, and it returns no error
    when the flag is true, whatever the full name; the function has no
    access to the outside world. *)
Theorem validateFork_spec (info : RepoInfo) :
  (validateFork info <> None <-> Fork info = false)
  /\ (Fork info = false ->
      validateFork info = Some ("repository " ++ FullName info ++ " isn't a fork")
      /\ forall msg, validateFork info = Some msg ->
                     Contains msg (FullName info) = true)
  /\ (Fork info = true -> validateFork info = None).
Proof.
  unfold validateFork. destruct (Fork info); cbn [negb].
  - split; [split; [congruence | discriminate]|].
    split; [discriminate | reflexivity].
  - split; [split; [reflexivity | discriminate]|].
    split; [|discriminate].
    intros _. split; [reflexivity|].
    intros msg [= <-]. exact (Contains_infix "repository " _ " isn't a fork").
Qed.

(** The arguments of the integration command. *)
Lemma syncArgs_eq (config : AppConfig) (b : string) :
  Args (getSyncCommand config b)
  = (if Rebase config then "rebase" else "merge")
      :: "upstream"
      :: (if String.eqb b "" then [] else ["upstream/" ++ b]).
Proof.
  unfold getSyncCommand.
  now destruct (Rebase config), (String.eqb b "").
Qed.

(** The arguments of the push command. *)
Lemma pushArgs_eq (config : AppConfig) :
  pushArgs config
  = "push" :: go_append (if ForcePush config then ["-f"] else [])
                        ["origin"; "HEAD:" ++ OriginBranch config].
Proof. unfold pushArgs. now destruct (ForcePush config). Qed.

(** C3: [getSyncCommand] depends on nothing but the rebase flag and the
    branch, so that equal inputs give equal commands, and it gives the
    four argument lists and the two descriptions of the claim. *)
Theorem getSyncCommand_spec (config : AppConfig) (b : string) :
  (forall config' b',
      Rebase config' = Rebase config -> b' = b ->
      getSyncCommand config' b' = getSyncCommand config b)
  /\ (Rebase config = true -> b = "" ->
      Args (getSyncCommand config b) = ["rebase"; "upstream"])
  /\ (Rebase config = true -> b <> "" ->
      Args (getSyncCommand config b) = ["rebase"; "upstream"; "upstream/" ++ b])
  /\ (Rebase config = false -> b = "" ->
      Args (getSyncCommand config b) = ["merge"; "upstream"])
  /\ (Rebase config = false -> b <> "" ->
      Args (getSyncCommand config b) = ["merge"; "upstream"; "upstream/" ++ b])
  /\ (Rebase config = true ->
      Description (getSyncCommand config b) = "rebasing onto upstream")
  /\ (Rebase config = false ->
      Description (getSyncCommand config b) = "merging upstream").
Proof.
  split.
  - intros config' b' Hr ->. unfold getSyncCommand. now rewrite Hr.
  - unfold getSyncCommand.
    destruct (Rebase config); destruct (String.eqb_spec b "") as [->|Hb];
      cbn [negb Args Description go_append app];
      repeat split; intros; try reflexivity; try discriminate; try contradiction.
Qed.

End Builders.

Lemma validateFork_spec_witness :
  validateFork {| FullName := "user/repo"; Fork := false;
                  Parent := {| ParentFullName := ""; CloneURL := "" |} |}
  = Some "repository user/repo isn't a fork"
  /\ validateFork {| FullName := "user/repo"; Fork := true;
                     Parent := {| ParentFullName := ""; CloneURL := "" |} |}
     = None.
Proof.
  split.
  - refine (proj1 (proj1 (proj2 (validateFork_spec _)) _)). reflexivity.
  - apply (proj2 (proj2 (validateFork_spec _))). reflexivity.
Defined.

Lemma getSyncCommand_spec_witness :
  Args (getSyncCommand defaultConfig "main") = ["merge"; "upstream"; "upstream/main"]
  /\ Args (getSyncCommand defaultConfig "") = ["merge"; "upstream"]
  /\ Description (getSyncCommand defaultConfig "main") = "merging upstream".
Proof.
  split; [|split].
  - apply (proj1 (proj2 (proj2 (proj2 (proj2 (getSyncCommand_spec defaultConfig "main")))))).
    + reflexivity.
    + discriminate.
  - apply (proj1 (proj2 (proj2 (proj2 (getSyncCommand_spec defaultConfig ""))))).
    + reflexivity.
    + reflexivity.
  - apply (proj2 (proj2 (proj2 (proj2 (proj2 (proj2
             (getSyncCommand_spec defaultConfig "main"))))))).
    reflexivity.
Defined.

(** * The orchestrator *)

Section OrchestratorFacts.

Variable World : Type.
Variable CombinedOutput : string -> list string -> World -> (string * option error) * World.
Variable DefaultRESTClient : World -> option error * World.
Variable client_Get : string -> World -> (RepoInfo * option error) * World.
Variable LookPath : string -> World -> (string * option error) * World.
Variable TrimSpace : string -> string.

Local Abbreviation M := (M World).
Local Abbreviation after := (after World).
Local Abbreviation bind := (bind World).
Local Abbreviation ret := (ret World).
Local Abbreviation runGitCommand := (runGitCommand World CombinedOutput).
Local Abbreviation syncUpstream := (syncUpstream World CombinedOutput).
Local Abbreviation GetOriginRepo := (GetOriginRepo World CombinedOutput TrimSpace).
Local Abbreviation getRepoInfo := (getRepoInfo World client_Get).
Local Abbreviation printDryRun := (printDryRun World).
Local Abbreviation main :=
  (main World CombinedOutput DefaultRESTClient client_Get LookPath TrimSpace).
Local Abbreviation logOf :=
  (logOf World CombinedOutput DefaultRESTClient client_Get LookPath TrimSpace).
Local Abbreviation exitsNormally :=
  (exitsNormally World CombinedOutput DefaultRESTClient client_Get LookPath TrimSpace).

Lemma snd_after {A : Type} (pre : list event) (x : flow A * World * list event) :
  snd (after pre x) = (pre ++ snd x)%list.
Proof. now destruct x as [[r w] t]. Qed.

Lemma fst_after {A : Type} (pre : list event) (x : flow A * World * list event) :
  fst (after pre x) = fst x.
Proof. now destruct x as [[r w] t]. Qed.

Lemma after_after {A : Type} (p q : list event) (x : flow A * World * list event) :
  after p (after q x) = after (p ++ q)%list x.
Proof. destruct x as [[r w] t]. simpl. now rewrite app_assoc. Qed.

Lemma after_nil {A : Type} (x : flow A * World * list event) : after [] x = x.
Proof. now destruct x as [[r w] t]. Qed.

(** ** How one statement followed by the rest runs *)

Lemma bind_ret {A B : Type} (a : A) (k : A -> M B) (w : World) :
  bind (ret a) k w = k a w.
Proof. unfold bind, ret. now destruct (k a w) as [[r w'] t]. Qed.

Lemma bind_return {A B : Type} (k : A -> M B) (w : World) :
  bind (return_ World) k w = (Return, w, []).
Proof. reflexivity. Qed.

Lemma bind_panic {A B : Type} (k : A -> M B) (w : World) :
  bind (panic World) k w = (Panicked, w, []).
Proof. reflexivity. Qed.

Lemma bind_bind {A B C : Type} (m : M A) (f : A -> M B) (g : B -> M C) (w : World) :
  bind (bind m f) g w = bind m (fun x => bind (f x) g) w.
Proof.
  unfold bind. destruct (m w) as [[[a| |] w1] t1]; try reflexivity.
  destruct (f a w1) as [[[b| |] w2] t2]; try reflexivity.
  destruct (g b w2) as [[r w3] t3]. now rewrite app_assoc.
Qed.

Lemma bind_Printf {B : Type} (text : string) (k : unit -> M B) (w : World) :
  bind (Printf World text) k w = after [Printed text] (k tt w).
Proof. reflexivity. Qed.

Lemma bind_Println {B : Type} (text : string) (k : unit -> M B) (w : World) :
  bind (Println World text) k w = after [Printed (text ++ LF)] (k tt w).
Proof. reflexivity. Qed.

Lemma bind_if_Printf {B : Type} (c : bool) (a b : string) (k : unit -> M B)
      (w : World) :
  bind (if c then Printf World a else Printf World b) k w
  = after [Printed (if c then a else b)] (k tt w).
Proof. now destruct c. Qed.

Lemma bind_if_Println {B : Type} (c : bool) (a b : string) (k : unit -> M B)
      (w : World) :
  bind (if c then Println World a else Println World b) k w
  = after [Printed ((if c then a else b) ++ LF)] (k tt w).
Proof. now destruct c. Qed.

Lemma bind_runGitCommand {B : Type} (gitBin : string) (cmd : GitCommand)
      (k : option error -> M B) (w w1 : World) (out : string) (err : option error) :
  CombinedOutput gitBin (Args cmd) w = ((out, err), w1) ->
  bind (runGitCommand gitBin cmd) k w
  = after [Executed gitBin (Args cmd) out err]
          (k (option_map (fun e => commandError cmd e out) err) w1).
Proof.
  intros E. unfold runGitCommand. rewrite bind_bind.
  unfold bind at 1. unfold exec_CombinedOutput. rewrite E.
  destruct err as [e|]; rewrite bind_ret; cbn [option_map];
    now destruct (k _ w1) as [[r w2] t2].
Qed.

(** ** The runs of [syncUpstream] *)

Ltac run_command o e w' :=
  match goal with
  | |- context [bind (runGitCommand ?g ?c) ?k ?w] =>
      let E := fresh "E" in
      destruct (CombinedOutput g (Args c) w) as [[o [e|]] w'] eqn:E;
      rewrite (bind_runGitCommand g c k w _ _ _ E); cbn [option_map]
  end.

Ltac run_plain :=
  first [ rewrite bind_bind
        | rewrite bind_if_Printf
        | rewrite bind_if_Println
        | rewrite bind_Printf
        | rewrite bind_Println
        | rewrite bind_ret
        | rewrite bind_return
        | rewrite after_after ];
  cbn [app].

Lemma syncUpstream_runs (config : AppConfig) (repoInfo : RepoInfo) (gitBin : string)
      (w : World) :
  syncRun config repoInfo gitBin
          (fst (fst (syncUpstream config repoInfo gitBin w)))
          (snd (syncUpstream config repoInfo gitBin w)).
Proof.
  unfold syncUpstream, skip.
  fold (remoteAddCommand repoInfo). fold fetchCommand. fold (pushCommand config).
  assert (Hpass : forall o1 e1,
             e1 = None
             \/ (exists e, e1 = Some e
                  /\ strings.Contains (commandError (remoteAddCommand repoInfo) e o1)
                                      "remote upstream already exists" = true) ->
             passed repoInfo (Args (remoteAddCommand repoInfo), o1, e1)).
  { intros o1 e1 [->|(e & -> & H)]; [exact I | split; [reflexivity | exact H]]. }
  run_command o1 e1 w1;
    [destruct (strings.Contains (commandError (remoteAddCommand repoInfo) e1 o1)
                                "remote upstream already exists") eqn:Hexists;
     cbn [negb]|];
    repeat run_plain.
  2: { cbn [after fst snd app]. now apply RemoteAddFatal. }
  all: run_command o2 e2 w2; repeat run_plain;
    [cbn [after fst snd app]; apply FetchFailed; apply Hpass; eauto|].
  all: run_command o3 e3 w3; repeat run_plain;
    [cbn [after fst snd app]; apply SyncFailed; apply Hpass; eauto|].
  all: run_command o4 e4 w4; repeat run_plain;
    cbn [after fst snd app];
    [apply PushFailed | apply SyncDone]; apply Hpass; eauto.
Qed.

(** ** The runs of [main] *)

Lemma bind_exec {B : Type} (name : string) (args : list string)
      (k : string * option error -> M B) (w w1 : World) (out : string)
      (err : option error) :
  CombinedOutput name args w = ((out, err), w1) ->
  bind (exec_CombinedOutput World CombinedOutput name args) k w
  = after [Executed name args out err] (k (out, err) w1).
Proof.
  intros E. unfold bind, exec_CombinedOutput. rewrite E.
  now destruct (k _ w1) as [[r w2] t2].
Qed.

Lemma bind_client {B : Type} (k : option error -> M B) (w w1 : World)
      (err : option error) :
  DefaultRESTClient w = (err, w1) ->
  bind (api_DefaultRESTClient World DefaultRESTClient) k w
  = after [NewRESTClient err] (k err w1).
Proof.
  intros E. unfold bind, api_DefaultRESTClient. rewrite E.
  now destruct (k _ w1) as [[r w2] t2].
Qed.

Lemma bind_Get {B : Type} (path : string) (k : RepoInfo * option error -> M B)
      (w w1 : World) (info : RepoInfo) (err : option error) :
  client_Get path w = ((info, err), w1) ->
  bind (api_Get World client_Get path) k w
  = after [ApiGet path info err] (k (info, err) w1).
Proof.
  intros E. unfold bind, api_Get. rewrite E.
  now destruct (k _ w1) as [[r w2] t2].
Qed.

Lemma bind_LookPath {B : Type} (file : string) (k : string * option error -> M B)
      (w w1 : World) (path : string) (err : option error) :
  LookPath file w = ((path, err), w1) ->
  bind (safeexec_LookPath World LookPath file) k w
  = after [LookedPath file path err] (k (path, err) w1).
Proof.
  intros E. unfold bind, safeexec_LookPath. rewrite E.
  now destruct (k _ w1) as [[r w2] t2].
Qed.

(** The dry run prints its six lines and touches nothing. *)
Lemma printDryRun_eq (config : AppConfig) (parentCloneURL : string) (w : World) :
  printDryRun config parentCloneURL w
  = (Next tt, w, dryRunLog config parentCloneURL).
Proof.
  unfold printDryRun, dryRunLog.
  destruct (Rebase config), (ForcePush config); reflexivity.
Qed.

Lemma main_dry_run (config : AppConfig) (w : World) :
  DryRun config = true ->
  main config w
  = (Return, w, dryRunLog config "https://github.com/upstream/repo.git").
Proof.
  intros Hdry. unfold main. rewrite Hdry, !bind_bind.
  unfold bind at 1. rewrite printDryRun_eq.
  rewrite bind_return. now rewrite app_nil_r.
Qed.

Ltac run_setup :=
  first [ rewrite bind_bind
        | rewrite bind_Printf
        | rewrite bind_ret
        | rewrite bind_return
        | rewrite bind_panic
        | rewrite after_after ];
  cbn [app].

(** A run against a fork: [main] comes to [syncUpstream]. *)
Lemma main_against_fork (config : AppConfig) (w w1 w2 w3 w4 : World)
      (out owner repo gitBin : string) (info : RepoInfo) :
  DryRun config = false ->
  DefaultRESTClient w = (None, w1) ->
  CombinedOutput "git" ["remote"; "get-url"; "origin"] w1 = ((out, None), w2) ->
  parseOriginURL (TrimSpace out) = Normal (owner, repo, None) ->
  client_Get ("repos/" ++ owner ++ "/" ++ repo) w2 = ((info, None), w3) ->
  Fork info = true ->
  LookPath "git" w3 = ((gitBin, None), w4) ->
  main config w
  = after (setupLog out ("repos/" ++ owner ++ "/" ++ repo) info gitBin)
          (syncUpstream config info gitBin w4).
Proof.
  intros Hdry E1 E2 Hparse E3 Hfork E4.
  unfold main, skip. rewrite Hdry. run_setup.
  rewrite (bind_client _ _ _ _ E1). run_setup.
  unfold GetOriginRepo. run_setup.
  rewrite (bind_exec _ _ _ _ _ _ _ E2). rewrite Hparse.
  cbn [liftOutcome]. repeat run_setup.
  unfold getRepoInfo. run_setup.
  rewrite (bind_Get _ _ _ _ _ _ E3). repeat run_setup.
  unfold validateFork. rewrite Hfork. cbn [negb]. repeat run_setup.
  rewrite (bind_LookPath _ _ _ _ _ _ E4). repeat run_setup.
  reflexivity.
Qed.

Ltac setup_only :=
  let H := fresh in
  intros ? ? ? H; cbn [executedOf In] in H;
  repeat (destruct H as [H|H]; [congruence|]); contradiction.

Ltac setup_stops :=
  cbn [after fst snd app];
  eexists; exists []; rewrite app_nil_r;
  split; [reflexivity | split; [setup_only | left; split; reflexivity]].

(** Every run of [main] that is not a dry run: some events in which no
    command runs but the query for the origin URL, and then either
    [main] returns or [syncUpstream] runs, for a fork. *)
Lemma main_runs (config : AppConfig) (w : World) :
  DryRun config = false ->
  exists pre t,
    snd (main config w) = (pre ++ t)%list
    /\ setupOnly pre
    /\ ((t = [] /\ fst (fst (main config w)) = Return)
        \/ exists info gitBin,
             Fork info = true
             /\ syncRun config info gitBin (fst (fst (main config w))) t).
Proof.
  intros Hdry. unfold main, skip. rewrite Hdry. run_setup.
  destruct (DefaultRESTClient w) as [[e1|] w1] eqn:E1;
    rewrite (bind_client _ _ _ _ E1); repeat run_setup; [setup_stops|].
  unfold GetOriginRepo. run_setup.
  destruct (CombinedOutput "git" ["remote"; "get-url"; "origin"] w1)
    as [[out [e2|]] w2] eqn:E2;
    rewrite (bind_exec _ _ _ _ _ _ _ E2); repeat run_setup; [setup_stops|].
  pose proof (parseOriginURL_total (TrimSpace out)) as Htotal.
  destruct (parseOriginURL (TrimSpace out)) as [[[owner repo] [e3|]]|];
    [| |contradiction]; cbn [liftOutcome]; repeat run_setup; [setup_stops|].
  unfold getRepoInfo. run_setup.
  destruct (client_Get ("repos/" ++ owner ++ "/" ++ repo) w2)
    as [[info [e4|]] w3] eqn:E3;
    rewrite (bind_Get _ _ _ _ _ _ E3); repeat run_setup; [setup_stops|].
  unfold validateFork.
  destruct (Fork info) eqn:Hfork; cbn [negb]; repeat run_setup; [|setup_stops].
  destruct (LookPath "git" w3) as [[gitBin [e5|]] w4] eqn:E4;
    rewrite (bind_LookPath _ _ _ _ _ _ E4); repeat run_setup; [setup_stops|].
  rewrite snd_after, fst_after.
  eexists; eexists. split; [reflexivity|].
  split; [setup_only|].
  right. exists info, gitBin. split; [exact Hfork | apply syncUpstream_runs].
Qed.

(** [main] never panics. *)
Lemma main_exits_normally (config : AppConfig) (w : World) :
  exitsNormally config w = true.
Proof.
  unfold exitsNormally.
  destruct (DryRun config) eqn:Hdry.
  - now rewrite (main_dry_run config w Hdry).
  - destruct (main_runs config w Hdry) as (pre & t & _ & _ & [[_ ->]|H]);
      [reflexivity|].
    destruct H as (info & gitBin & _ & Hrun). now destruct Hrun.
Qed.

(** Every run of [main] is one of the eight of [mainRun]. *)
Lemma main_mainRun (config : AppConfig) (w : World) :
  mainRun TrimSpace config (fst (fst (main config w))) (snd (main config w)).
Proof.
  destruct (DryRun config) eqn:Hdry.
  { rewrite (main_dry_run config w Hdry). now apply RunDry. }
  unfold main, skip. rewrite Hdry. run_setup.
  destruct (DefaultRESTClient w) as [[e1|] w1] eqn:E1;
    rewrite (bind_client _ _ _ _ E1); repeat run_setup;
    [cbn [after fst snd app]; now apply RunNoClient|].
  unfold GetOriginRepo. run_setup.
  destruct (CombinedOutput "git" ["remote"; "get-url"; "origin"] w1)
    as [[out [e2|]] w2] eqn:E2;
    rewrite (bind_exec _ _ _ _ _ _ _ E2); repeat run_setup;
    [cbn [after fst snd app]; now apply RunNoOrigin|].
  pose proof (parseOriginURL_total (TrimSpace out)) as Htotal.
  destruct (parseOriginURL (TrimSpace out)) as [[[owner repo] [e3|]]|] eqn:Hparse;
    [| |contradiction]; cbn [liftOutcome]; repeat run_setup;
    [cbn [after fst snd app]; now apply (RunBadURL _ _ out owner repo)|].
  unfold getRepoInfo. run_setup.
  fold (repoPath owner repo).
  destruct (client_Get (repoPath owner repo) w2) as [[info [e4|]] w3] eqn:E3;
    rewrite (bind_Get _ _ _ _ _ _ E3); repeat run_setup;
    [cbn [after fst snd app]; now apply (RunNoInfo _ _ out owner repo)|].
  unfold validateFork.
  destruct (Fork info) eqn:Hfork; cbn [negb]; repeat run_setup;
    [|cbn [after fst snd app]; now apply (RunNotFork _ _ out owner repo)].
  destruct (LookPath "git" w3) as [[gitBin [e5|]] w4] eqn:E4;
    rewrite (bind_LookPath _ _ _ _ _ _ E4); repeat run_setup;
    [cbn [after fst snd app]; now apply (RunNoGit _ _ out owner repo)|].
  rewrite snd_after, fst_after.
  apply (RunSync _ _ out owner repo); try assumption.
  apply syncUpstream_runs.
Qed.

End OrchestratorFacts.

(** * The dry run *)

Section DryRunClaims.

Variable World : Type.
Variable CombinedOutput : string -> list string -> World -> (string * option error) * World.
Variable DefaultRESTClient : World -> option error * World.
Variable client_Get : string -> World -> (RepoInfo * option error) * World.
Variable LookPath : string -> World -> (string * option error) * World.
Variable TrimSpace : string -> string.

Local Abbreviation main :=
  (main World CombinedOutput DefaultRESTClient client_Get LookPath TrimSpace).
Local Abbreviation logOf :=
  (logOf World CombinedOutput DefaultRESTClient client_Get LookPath TrimSpace).
Local Abbreviation exitsNormally :=
  (exitsNormally World CombinedOutput DefaultRESTClient client_Get LookPath TrimSpace).

(** C4: with the dry-run flag set, [main] writes the six lines of
    [printDryRun] for the placeholder URL and returns; it runs no command
    and calls neither the hosting API nor the path lookup, and it leaves
    the world as it was. *)
Theorem dry_run_calls_nothing (config : AppConfig) (w : World) :
  DryRun config = true ->
  main config w
  = (Return, w, snd (printDryRun World config "https://github.com/upstream/repo.git" w))
  /\ logOf config w = dryRunLog config "https://github.com/upstream/repo.git"
  /\ collaboratorCalls (logOf config w) = 0
  /\ executedOf (logOf config w) = []
  /\ List.length (printedOf (logOf config w)) = 6
  /\ exitsNormally config w = true.
Proof.
  intros Hdry. unfold logOf, exitsNormally.
  rewrite (main_dry_run World CombinedOutput DefaultRESTClient client_Get
                        LookPath TrimSpace config w Hdry).
  rewrite printDryRun_eq. repeat split; reflexivity.
Qed.

End DryRunClaims.

(** * The four commands of a real run *)

Section SyncFacts.

Lemma executedOf_app (l1 l2 : list event) :
  executedOf (l1 ++ l2) = (executedOf l1 ++ executedOf l2)%list.
Proof.
  induction l1 as [|e l1 IH]; [reflexivity|].
  destruct e; cbn [app executedOf]; try exact IH. now rewrite IH.
Qed.

Lemma In_executedOf (name : string) (args : list string) (out : string)
      (err : option error) (log : list event) :
  In (Executed name args out err) log -> In (args, out, err) (executedOf log).
Proof.
  induction log as [|e log IH]; [contradiction|].
  intros [->|H]; [now left|].
  destruct e; cbn [executedOf]; try (now apply IH). right. now apply IH.
Qed.

(** The first argument tells the four commands and the URL query apart. *)
Lemma hd_sync (config : AppConfig) (b : string) :
  hd "" (Args (getSyncCommand config b)) = if Rebase config then "rebase" else "merge".
Proof. now rewrite syncArgs_eq. Qed.

Lemma hd_push (config : AppConfig) : hd "" (Args (pushCommand config)) = "push".
Proof. unfold pushCommand. cbn [Args]. now rewrite pushArgs_eq. Qed.

Lemma sync_not (config : AppConfig) (b verb : string) (rest : list string) :
  verb = "remote" \/ verb = "fetch" \/ verb = "push" ->
  Args (getSyncCommand config b) <> verb :: rest.
Proof.
  intros Hv H. apply (f_equal (hd "")) in H. rewrite hd_sync in H. cbn [hd] in H.
  destruct Hv as [Hv|[Hv|Hv]]; rewrite Hv in H;
    destruct (Rebase config); discriminate.
Qed.

Lemma sync_not_push (config config' : AppConfig) (b : string) :
  Args (getSyncCommand config b) <> Args (pushCommand config').
Proof.
  intros H. apply (f_equal (hd "")) in H. rewrite hd_sync, hd_push in H.
  destruct (Rebase config); discriminate.
Qed.

Lemma push_not (config : AppConfig) (verb : string) (rest : list string) :
  verb = "remote" \/ verb = "fetch" ->
  Args (pushCommand config) <> verb :: rest.
Proof.
  intros Hv H. apply (f_equal (hd "")) in H. rewrite hd_push in H. cbn [hd] in H.
  destruct Hv as [Hv|Hv]; rewrite Hv in H; discriminate.
Qed.

(** ** What the commands of a run of [syncUpstream] are *)

Lemma syncRun_commands (config : AppConfig) (info : RepoInfo) (gitBin : string)
      (r : flow unit) (t : list event) :
  syncRun config info gitBin r t ->
  exists n,
    1 <= n
    /\ map (fun x => fst (fst x)) (executedOf t) = firstn n (plannedCommands config info)
    /\ (forall i x, S i < List.length (executedOf t) ->
                    nth_error (executedOf t) i = Some x -> passed info x)
    /\ ((forall x, In x (executedOf t) -> succeeded x) ->
        map (fun x => fst (fst x)) (executedOf t) = plannedCommands config info).
Proof.
  intros Hrun.
  assert (Hnth : forall (a b c d : list string * string * option error) i x,
             passed info a -> snd b = None -> snd c = None ->
             nth_error [a; b; c; d] i = Some x -> S i < 4 -> passed info x).
  { intros a b c d i x Ha Hb Hc Hx Hi.
    destruct i as [|[|[|i]]]; cbn [nth_error] in Hx; try lia;
      injection Hx as <-; [exact Ha| |];
      match goal with
      | H : snd ?y = None |- passed info ?y =>
          destruct y as [[? ?] ?]; cbn [snd] in H; rewrite H; exact I
      end. }
  destruct Hrun as [o1 e1 Hfatal | o1 e1 o2 e2 Hp | o1 e1 o2 o3 e3 Hp
                   | o1 e1 o2 o3 o4 e4 Hp | o1 e1 o2 o3 o4 Hp];
    cbn [executedOf map List.length].
  - exists 1. split; [lia|]. split; [reflexivity|]. split.
    + intros i x Hi. lia.
    + intros Hall. specialize (Hall _ (or_introl eq_refl)). discriminate Hall.
  - exists 2. split; [lia|]. split; [reflexivity|]. split.
    + intros i x Hi Hx. destruct i as [|i]; [|lia].
      injection Hx as <-. exact Hp.
    + intros Hall. specialize (Hall _ (or_intror (or_introl eq_refl))).
      discriminate Hall.
  - exists 3. split; [lia|]. split; [reflexivity|]. split.
    + intros i x Hi Hx. destruct i as [|[|i]]; [| |lia];
        injection Hx as <-; [exact Hp | exact I].
    + intros Hall.
      specialize (Hall _ (or_intror (or_intror (or_introl eq_refl)))).
      discriminate Hall.
  - exists 4. split; [lia|]. split; [reflexivity|]. split.
    + intros i x Hi Hx. eapply Hnth; [exact Hp| | |exact Hx|exact Hi]; reflexivity.
    + intros Hall.
      specialize (Hall _ (or_intror (or_intror (or_intror (or_introl eq_refl))))).
      discriminate Hall.
  - exists 4. split; [lia|]. split; [reflexivity|]. split.
    + intros i x Hi Hx. eapply Hnth; [exact Hp| | |exact Hx|exact Hi]; reflexivity.
    + reflexivity.
Qed.

(** When every command of the run passed, the run is the complete one. *)
Lemma syncRun_all_passed (config : AppConfig) (info : RepoInfo) (gitBin : string)
      (r : flow unit) (t : list event) :
  syncRun config info gitBin r t ->
  (forall x, In x (executedOf t) -> passed info x) ->
  map (fun x => fst (fst x)) (executedOf t) = plannedCommands config info
  /\ r = Next tt.
Proof.
  intros Hrun Hall.
  destruct Hrun as [o1 e1 Hfatal | o1 e1 o2 e2 Hp | o1 e1 o2 o3 e3 Hp
                   | o1 e1 o2 o3 o4 e4 Hp | o1 e1 o2 o3 o4 Hp];
    cbn [executedOf] in Hall.
  - destruct (Hall _ (or_introl eq_refl)) as [_ Hyes]. congruence.
  - destruct (Hall _ (or_intror (or_introl eq_refl))) as [Hargs _].
    discriminate Hargs.
  - destruct (Hall _ (or_intror (or_intror (or_introl eq_refl)))) as [Hargs _].
    exfalso. revert Hargs. apply sync_not. tauto.
  - destruct (Hall _ (or_intror (or_intror (or_intror (or_introl eq_refl)))))
      as [Hargs _].
    exfalso. revert Hargs. apply push_not. tauto.
  - split; reflexivity.
Qed.

(** Two events of a log are the same command only if the arguments are. *)
Ltac same_command H :=
  let Hargs := fresh "Hargs" in
  first
    [ discriminate H
    | injection H as ? Hargs ? ?;
      first
        [ discriminate Hargs
        | exfalso; revert Hargs; apply sync_not; tauto
        | exfalso; revert Hargs; apply push_not; tauto
        | exfalso; revert Hargs; apply sync_not_push
        | exfalso; symmetry in Hargs; revert Hargs; apply sync_not; tauto
        | exfalso; symmetry in Hargs; revert Hargs; apply push_not; tauto
        | exfalso; symmetry in Hargs; revert Hargs; apply sync_not_push ] ].

Ltac no_such_event H :=
  cbn [In] in H;
  repeat (let H' := fresh in destruct H as [H'|H]; [same_command H'|]);
  try contradiction.

(** ** A failed integration *)

Lemma syncRun_sync_failed (config : AppConfig) (info : RepoInfo) (gitBin : string)
      (r : flow unit) (t : list event) (name out : string) (err : error) :
  syncRun config info gitBin r t ->
  In (Executed name (Args (getSyncCommand config (UpstreamBranch config))) out (Some err)) t ->
  name = gitBin
  /\ r = Return
  /\ (exists o1 e1 o2,
        t = [ Executed gitBin (Args (remoteAddCommand info)) o1 e1;
              Executed gitBin (Args fetchCommand) o2 None;
              Printed ("✓ Fetched upstream" ++ LF);
              Executed name (Args (getSyncCommand config (UpstreamBranch config)))
                       out (Some err);
              Printed (errorLine (getSyncCommand config (UpstreamBranch config))
                                 err out);
              Printed (abortLine config) ])
  /\ (forall name' out' err',
         ~ In (Executed name' (Args (pushCommand config)) out' err') t).
Proof.
  intros Hrun Hin.
  destruct Hrun as [o1 e1 Hfatal | o1 e1 o2 e2 Hp | o1 e1 o2 o3 e3 Hp
                   | o1 e1 o2 o3 o4 e4 Hp | o1 e1 o2 o3 o4 Hp].
  - no_such_event Hin.
  - no_such_event Hin.
  - cbn [In] in Hin.
    destruct Hin as [H|[H|[H|[H|Hin]]]];
      [same_command H | same_command H | same_command H | | no_such_event Hin].
    injection H as -> -> ->.
    split; [reflexivity|]. split; [reflexivity|]. split.
    + exists o1, e1, o2. reflexivity.
    + intros name' out' err' Hpush. no_such_event Hpush.
  - no_such_event Hin.
  - no_such_event Hin.
Qed.

(** ** A failed remote-add *)

Lemma syncRun_remote_add_failed (config : AppConfig) (info : RepoInfo)
      (gitBin : string) (r : flow unit) (t : list event)
      (name url out : string) (err : error) :
  syncRun config info gitBin r t ->
  In (Executed name ["remote"; "add"; "upstream"; url] out (Some err)) t ->
  name = gitBin
  /\ url = CloneURL (Parent info)
  /\ (strings.Contains (commandError (remoteAddCommand info) err out)
                       "remote upstream already exists" = true ->
      exists out' err' rest,
        t = Executed gitBin (Args (remoteAddCommand info)) out (Some err)
              :: Executed gitBin (Args fetchCommand) out' err' :: rest)
  /\ (strings.Contains (commandError (remoteAddCommand info) err out)
                       "remote upstream already exists" = false ->
      r = Return
      /\ t = [ Executed gitBin (Args (remoteAddCommand info)) out (Some err);
               Printed (errorLine (remoteAddCommand info) err out) ]).
Proof.
  intros Hrun Hin.
  destruct Hrun as [o1 e1 Hfatal | o1 e1 o2 e2 Hp | o1 e1 o2 o3 e3 Hp
                   | o1 e1 o2 o3 o4 e4 Hp | o1 e1 o2 o3 o4 Hp];
    cbn [In] in Hin; destruct Hin as [H|Hin]; try (no_such_event Hin; fail);
    injection H as -> <- -> ->;
    (split; [reflexivity|]); (split; [reflexivity|]).
  - split; [intros Hyes; fold (remoteAddCommand info) in Hyes; congruence|].
    intros _. split; reflexivity.
  - destruct Hp as [_ Hp]. split; [intros _; eauto|].
    intros Hno. fold (remoteAddCommand info) in Hno. congruence.
  - destruct Hp as [_ Hp]. split; [intros _; eauto|].
    intros Hno. fold (remoteAddCommand info) in Hno. congruence.
  - destruct Hp as [_ Hp]. split; [intros _; eauto|].
    intros Hno. fold (remoteAddCommand info) in Hno. congruence.
  - destruct Hp as [_ Hp]. split; [intros _; eauto|].
    intros Hno. fold (remoteAddCommand info) in Hno. congruence.
Qed.

End SyncFacts.

Section SyncClaims.

Variable World : Type.
Variable CombinedOutput : string -> list string -> World -> (string * option error) * World.
Variable DefaultRESTClient : World -> option error * World.
Variable client_Get : string -> World -> (RepoInfo * option error) * World.
Variable LookPath : string -> World -> (string * option error) * World.
Variable TrimSpace : string -> string.

Local Abbreviation main :=
  (main World CombinedOutput DefaultRESTClient client_Get LookPath TrimSpace).
Local Abbreviation logOf :=
  (logOf World CombinedOutput DefaultRESTClient client_Get LookPath TrimSpace).
Local Abbreviation main_runs :=
  (main_runs World CombinedOutput DefaultRESTClient client_Get LookPath TrimSpace).
Local Abbreviation main_dry_run :=
  (main_dry_run World CombinedOutput DefaultRESTClient client_Get LookPath TrimSpace).

(** A command other than the URL query belongs to [syncUpstream]. *)
Lemma command_of_sync (config : AppConfig) (w : World)
      (name : string) (args : list string) (out : string) (err : option error) :
  In (Executed name args out err) (logOf config w) ->
  args <> ["remote"; "get-url"; "origin"] ->
  exists pre t info gitBin,
    logOf config w = (pre ++ t)%list
    /\ setupOnly pre
    /\ syncRun config info gitBin (fst (fst (main config w))) t
    /\ In (Executed name args out err) t.
Proof.
  intros Hin Hargs. unfold logOf in *.
  destruct (DryRun config) eqn:Hdry.
  - rewrite (main_dry_run config w Hdry) in Hin. cbn [snd dryRunLog In] in Hin.
    repeat (destruct Hin as [Hin|Hin]; [discriminate Hin|]). contradiction.
  - destruct (main_runs config w Hdry) as (pre & t & Hlog & Hpre & Hcases).
    rewrite Hlog in Hin. apply in_app_or in Hin.
    assert (Hnot : ~ In (Executed name args out err) pre).
    { intros H. apply In_executedOf in H. apply Hpre in H. contradiction. }
    destruct Hin as [Hin|Hin]; [contradiction|].
    destruct Hcases as [[-> _]|(info & gitBin & _ & Hrun)]; [contradiction|].
    exists pre, t, info, gitBin. auto.
Qed.

(** C6: when the log shows the integration command failing, no push
    command is in the log, the log ends with the error line and the abort
    line of the strategy in use, which names "git rebase --abort" under
    rebase and "git merge --abort" otherwise, and [main] returns. *)
Theorem integration_failure_stops_before_push
        (config : AppConfig) (w : World) (name out : string) (err : error) :
  In (Executed name (Args (getSyncCommand config (UpstreamBranch config)))
               out (Some err))
     (logOf config w) ->
  (forall name' out' err',
      ~ In (Executed name' (pushArgs config) out' err') (logOf config w))
  /\ (exists before,
        logOf config w
        = before
            ++ [ Executed name (Args (getSyncCommand config (UpstreamBranch config)))
                          out (Some err);
                 Printed (errorLine (getSyncCommand config (UpstreamBranch config))
                                    err out);
                 Printed (abortLine config) ])%list
  /\ strings.Contains (abortLine config) (abortHint config) = true
  /\ (Rebase config = true ->
      abortHint config = "git rebase --abort"
      /\ abortLine config = "To abort the rebase, run: git rebase --abort" ++ LF)
  /\ (Rebase config = false ->
      abortHint config = "git merge --abort"
      /\ abortLine config = "To abort the merge, run: git merge --abort" ++ LF)
  /\ fst (fst (main config w)) = Return.
Proof.
  intros Hin.
  destruct (command_of_sync config w _ _ _ _ Hin) as
    (pre & t & info & gitBin & Hlog & Hpre & Hrun & Hin').
  { apply sync_not. tauto. }
  destruct (syncRun_sync_failed _ _ _ _ _ _ _ _ Hrun Hin')
    as (-> & Hret & (o1 & e1 & o2 & Ht) & Hpush).
  split; [|split; [|split; [|split; [|split]]]].
  - intros name' out' err' H. rewrite Hlog in H. apply in_app_or in H.
    destruct H as [H|H].
    + apply In_executedOf in H. apply Hpre in H.
      revert H. change (pushArgs config) with (Args (pushCommand config)).
      apply push_not. tauto.
    + exact (Hpush _ _ _ H).
  - rewrite Hlog, Ht.
    exists (pre ++ [ Executed gitBin (Args (remoteAddCommand info)) o1 e1;
                     Executed gitBin (Args fetchCommand) o2 None;
                     Printed ("✓ Fetched upstream" ++ LF) ])%list.
    now rewrite <- app_assoc.
  - unfold abortLine, abortHint. now destruct (Rebase config).
  - unfold abortLine, abortHint. intros ->. split; reflexivity.
  - unfold abortLine, abortHint. intros ->. split; reflexivity.
  - exact Hret.
Qed.

(** C5: when the log shows the remote-add failing, and the error that
    [runGitCommand] makes of it contains "remote upstream already exists",
    the next event is the fetch command; with any other error [main]
    prints the error line and returns, and no command is in the log but
    the URL query and the remote-add. *)
Theorem remote_add_failure
        (config : AppConfig) (w : World) (name url out : string) (err : error) :
  let cmd := {| Args := ["remote"; "add"; "upstream"; url];
                Description := "adding upstream remote" |} in
  In (Executed name (Args cmd) out (Some err)) (logOf config w) ->
  (strings.Contains (commandError cmd err out) "remote upstream already exists" = true ->
   exists before out' err' rest,
     logOf config w
     = (before ++ Executed name (Args cmd) out (Some err)
               :: Executed name ["fetch"; "upstream"] out' err' :: rest)%list)
  /\ (strings.Contains (commandError cmd err out) "remote upstream already exists" = false ->
      fst (fst (main config w)) = Return
      /\ (exists before,
            setupOnly before
            /\ logOf config w
               = (before ++ [ Executed name (Args cmd) out (Some err);
                              Printed ("✗ Error while " ++ commandError cmd err out ++ LF) ])%list)
      /\ forall name' args' out' err',
           In (Executed name' args' out' err') (logOf config w) ->
           args' = ["remote"; "get-url"; "origin"] \/ args' = Args cmd).
Proof.
  intros cmd Hin.
  destruct (command_of_sync config w _ _ _ _ Hin) as
    (pre & t & info & gitBin & Hlog & Hpre & Hrun & Hin').
  { discriminate. }
  destruct (syncRun_remote_add_failed _ _ _ _ _ _ _ _ _ Hrun Hin')
    as (-> & -> & Hyes & Hno).
  fold (remoteAddCommand info) in cmd. subst cmd.
  split.
  - intros H. destruct (Hyes H) as (out' & err' & rest & Ht).
    exists pre, out', err', rest. now rewrite Hlog, Ht.
  - intros H. destruct (Hno H) as (Hret & Ht).
    split; [exact Hret|]. split.
    + exists pre. split; [exact Hpre|]. now rewrite Hlog, Ht.
    + intros name' args' out' err' H'. rewrite Hlog, Ht in H'.
      apply in_app_or in H'. destruct H' as [H'|H'].
      * left. apply In_executedOf in H'. now apply Hpre in H'.
      * right. cbn [In] in H'. destruct H' as [H'|[H'|[]]]; [|discriminate H'].
        now injection H' as _ <- _ _.
Qed.

(** C2, amended: in a run against a fork, after the query for the
    origin URL, the commands run are the first [n] of remote-add, fetch,
    integration and push, in this order; a command is followed by another
    only if it succeeded or, for the remote-add, failed with an error
    that contains "remote upstream already exists"; when every command
    that is run passes in this sense (in particular when every one
    succeeds) all four are run and [main] comes to its end.  For the configuration of the claim the
    four are the ones it lists, and the push arguments are "push", then
    "-f" exactly under [ForcePush], then "origin" and "HEAD:<originBranch>". *)
Theorem sync_commands_in_order
        (config : AppConfig) (w w1 w2 w3 w4 : World)
        (out owner repo gitBin : string) (info : RepoInfo) :
  DryRun config = false ->
  DefaultRESTClient w = (None, w1) ->
  CombinedOutput "git" ["remote"; "get-url"; "origin"] w1 = ((out, None), w2) ->
  parseOriginURL (TrimSpace out) = Normal (owner, repo, None) ->
  client_Get ("repos/" ++ owner ++ "/" ++ repo) w2 = ((info, None), w3) ->
  Fork info = true ->
  LookPath "git" w3 = ((gitBin, None), w4) ->
  exists ex n,
    executedOf (logOf config w) = (["remote"; "get-url"; "origin"], out, None) :: ex
    /\ 1 <= n
    /\ map (fun x => fst (fst x)) ex = firstn n (plannedCommands config info)
    /\ (forall i x, S i < List.length ex -> nth_error ex i = Some x -> passed info x)
    /\ ((forall x, In x ex -> succeeded x) ->
        map (fun x => fst (fst x)) ex = plannedCommands config info)
    /\ ((forall x, In x ex -> passed info x) ->
        map (fun x => fst (fst x)) ex = plannedCommands config info
        /\ fst (fst (main config w)) = Next tt)
    /\ pushArgs config
       = "push" :: go_append (if ForcePush config then ["-f"] else [])
                             ["origin"; "HEAD:" ++ OriginBranch config]
    /\ (config = defaultConfig ->
        plannedCommands config info
        = [ ["remote"; "add"; "upstream"; CloneURL (Parent info)];
            ["fetch"; "upstream"];
            ["merge"; "upstream"; "upstream/main"];
            ["push"; "origin"; "HEAD:main"] ]).
Proof.
  intros Hdry E1 E2 Hparse E3 Hfork E4.
  unfold logOf.
  rewrite (main_against_fork World CombinedOutput DefaultRESTClient client_Get
             LookPath TrimSpace config w w1 w2 w3 w4 out owner repo gitBin info
             Hdry E1 E2 Hparse E3 Hfork E4).
  rewrite snd_after, executedOf_app.
  pose proof (syncUpstream_runs World CombinedOutput config info gitBin w4) as Hrun.
  destruct (syncRun_commands _ _ _ _ _ Hrun) as (n & Hn & Hprefix & Hpassed & Hall).
  exists (executedOf (snd (syncUpstream World CombinedOutput config info gitBin w4))), n.
  split; [reflexivity|].
  split; [exact Hn|]. split; [exact Hprefix|]. split; [exact Hpassed|].
  split; [exact Hall|].
  split; [rewrite fst_after; exact (syncRun_all_passed _ _ _ _ _ Hrun)|].
  split; [apply pushArgs_eq|].
  intros ->. reflexivity.
Qed.

End SyncClaims.

(** ** Concrete runs *)

(** C2 as it was stated does not hold: when the remote-add fails because
    the remote is there already, the fetch, the merge and the push are run
    all the same, after a command that did not succeed. *)
Lemma fetch_follows_failed_remote_add :
  let log := snd (scriptedMain (failingAt "remote" "error: remote upstream already exists.")
                               defaultConfig tt) in
  map (fun x => (fst (fst x), snd x)) (executedOf log)
  = [ (["remote"; "get-url"; "origin"], None);
      (["remote"; "add"; "upstream"; "https://github.com/up/stream.git"],
       Some "exit status 1");
      (["fetch"; "upstream"], None);
      (["merge"; "upstream"; "upstream/main"], None);
      (["push"; "origin"; "HEAD:main"], None) ]
  /\ ~ (forall i j x y,
           i < j ->
           nth_error (executedOf log) i = Some x ->
           nth_error (executedOf log) j = Some y ->
           succeeded x).
Proof.
  split; [reflexivity|].
  intros H. specialize (H 1 2 _ _ (le_n 2) eq_refl eq_refl). discriminate H.
Qed.

(** C10: the code breaks the claim at the branch "main", which is not
    empty.  With the dry-run flag [main] prints, as the integration command
    that would be executed, "git merge upstream/main"; without the flag,
    and for the same branch, it executes the command that [getSyncCommand]
    builds, "git merge upstream upstream/main".  The line shown is not the
    line of the command run, although [printDryRun] announces "commands
    that would be executed". *)
Theorem dry_run_misreports_integration :
  UpstreamBranch dryRunConfig = "main"
  /\ UpstreamBranch defaultConfig = "main"
  /\ nth_error (printedOf (snd (scriptedMain forkScript dryRunConfig tt))) 4
     = Some ("Would run: git merge upstream/main" ++ LF)
  /\ nth_error (printedOf (snd (printDryRun unit defaultConfig placeholderURL tt))) 4
     = projectedSyncLine defaultConfig
  /\ projectedSyncLine defaultConfig = Some ("Would run: git merge upstream/main" ++ LF)
  /\ In (Executed "/usr/bin/git" ["merge"; "upstream"; "upstream/main"] "" None)
        (snd (scriptedMain forkScript defaultConfig tt))
  /\ Args (getSyncCommand defaultConfig (UpstreamBranch defaultConfig))
     = ["merge"; "upstream"; "upstream/main"]
  /\ realSyncLine defaultConfig = "Would run: git merge upstream upstream/main" ++ LF
  /\ projectedSyncLine defaultConfig <> Some (realSyncLine defaultConfig).
Proof.
  split; [reflexivity|]. split; [reflexivity|]. split; [reflexivity|].
  split; [reflexivity|]. split; [reflexivity|].
  split; [vm_compute; repeat (first [left; reflexivity | right])|].
  split; [reflexivity|]. split; [reflexivity|].
  discriminate.
Qed.

Lemma sync_commands_in_order_witness :
  (exists ex n,
      executedOf (snd (scriptedMain forkScript defaultConfig tt))
      = (["remote"; "get-url"; "origin"], originOutput forkScript, None) :: ex
      /\ 1 <= n
      /\ map (fun x => fst (fst x)) ex
         = firstn n (plannedCommands defaultConfig (fst (apiResponse forkScript))))
  /\ fst (fst (scriptedMain (failingAt "remote" "error: remote upstream already exists.")
                            defaultConfig tt))
     = Next tt.
Proof.
  split.
  - destruct (sync_commands_in_order unit (scriptedExec forkScript)
                (fun w => (None, w))
                (fun _ w => (apiResponse forkScript, w))
                (fun _ w => (gitPath forkScript, w))
                strings.TrimSpaceASCII
                defaultConfig tt tt tt tt tt
                (originOutput forkScript) "me" "stream" "/usr/bin/git"
                (fst (apiResponse forkScript))
                eq_refl eq_refl eq_refl eq_refl eq_refl eq_refl eq_refl)
      as (ex & n & H1 & H2 & H3 & _).
    exists ex, n. split; [exact H1|]. split; [exact H2 | exact H3].
  - destruct (sync_commands_in_order unit
                (scriptedExec (failingAt "remote" "error: remote upstream already exists."))
                (fun w => (None, w))
                (fun _ w => (apiResponse forkScript, w))
                (fun _ w => (gitPath forkScript, w))
                strings.TrimSpaceASCII
                defaultConfig tt tt tt tt tt
                (originOutput forkScript) "me" "stream" "/usr/bin/git"
                (fst (apiResponse forkScript))
                eq_refl eq_refl eq_refl eq_refl eq_refl eq_refl eq_refl)
      as (ex & n & H1 & _ & _ & _ & _ & Hpassed & _).
    apply Hpassed. vm_compute in H1. injection H1 as <-.
    intros x Hin. cbn [In] in Hin.
    destruct Hin as [<-|[<-|[<-|[<-|[]]]]]; cbn [passed]; try exact I.
    split; reflexivity.
Defined.

Lemma dry_run_calls_nothing_witness :
  executedOf (snd (scriptedMain forkScript dryRunConfig tt)) = [].
Proof.
  refine (proj1 (proj2 (proj2 (proj2
           (dry_run_calls_nothing unit (scriptedExec forkScript)
              (fun w => (None, w))
              (fun _ w => (apiResponse forkScript, w))
              (fun _ w => (gitPath forkScript, w))
              strings.TrimSpaceASCII dryRunConfig tt _))))).
  reflexivity.
Defined.

Lemma integration_failure_witness :
  fst (fst (scriptedMain (failingAt "merge" "CONFLICT") defaultConfig tt)) = Return.
Proof.
  refine (proj2 (proj2 (proj2 (proj2 (proj2
           (integration_failure_stops_before_push unit
              (scriptedExec (failingAt "merge" "CONFLICT"))
              (fun w => (None, w))
              (fun _ w => (apiResponse forkScript, w))
              (fun _ w => (gitPath forkScript, w))
              strings.TrimSpaceASCII
              defaultConfig tt "/usr/bin/git" "CONFLICT" "exit status 1" _)))))).
  do 8 right. left. reflexivity.
Defined.

Lemma remote_add_failure_witness :
  fst (fst (scriptedMain (failingAt "remote" "fatal: bad") defaultConfig tt)) = Return.
Proof.
  refine (proj1 (proj2
           (remote_add_failure unit
              (scriptedExec (failingAt "remote" "fatal: bad"))
              (fun w => (None, w))
              (fun _ w => (apiResponse forkScript, w))
              (fun _ w => (gitPath forkScript, w))
              strings.TrimSpaceASCII
              defaultConfig tt "/usr/bin/git" "https://github.com/up/stream.git"
              "fatal: bad" "exit status 1" _) _)).
  - do 5 right. left. reflexivity.
  - reflexivity.
Defined.

(** * Further properties of the parser and of the dry run *)

Section MoreParser.
Import strings stringsFacts.

Lemma Index_prefix (s sub : string) :
  String.prefix sub s = true -> Index s sub = Some 0.
Proof.
  intros H. destruct s; [rewrite Index_empty | rewrite Index_cons]; now rewrite H.
Qed.

(** The first occurrence of a one-byte separator after a text without it. *)
Lemma Index_after (a sub r : string) :
  String.length sub = 1 ->
  Index a sub = None ->
  Index (a ++ sub ++ r) sub = Some (String.length a).
Proof.
  intros Hlen. induction a as [|c a IH]; intros Hnone.
  - change ("" ++ sub ++ r) with (sub ++ r).
    apply Index_prefix. apply prefix_of_app.
  - rewrite Index_cons in Hnone.
    destruct (String.prefix sub (String c a)) eqn:Hp; [discriminate|].
    destruct (Index a sub) as [m|] eqn:Hi; [discriminate|].
    change (String c a ++ sub ++ r) with (String c (a ++ sub ++ r)).
    rewrite Index_cons.
    change (String c (a ++ sub ++ r)) with (String c a ++ sub ++ r).
    rewrite prefix_app_long by (rewrite Hlen; simpl; lia).
    rewrite Hp, (IH eq_refl). reflexivity.
Qed.

(** A text that holds [sub] still holds it inside a longer text. *)
Lemma Contains_inside (a s c sub : string) :
  Contains s sub = true -> Contains (a ++ s ++ c) sub = true.
Proof.
  unfold Contains at 1. destruct (Index s sub) as [m|] eqn:Hi; [|discriminate].
  intros _. rewrite (Index_occurs _ _ _ Hi).
  rewrite !append_assoc. rewrite <- (append_assoc a).
  apply Contains_infix.
Qed.

Lemma Contains_after (a s sub : string) :
  Contains s sub = true -> Contains (a ++ s) sub = true.
Proof.
  intros H. rewrite <- (append_empty_r s). now apply Contains_inside.
Qed.

Lemma Contains_before (s c sub : string) :
  Contains s sub = true -> Contains (s ++ c) sub = true.
Proof. intros H. exact (Contains_inside "" s c sub H). Qed.

(** The owner and the name behind a path [owner/rest]. *)
Lemma parse_of_path (url owner rest : string) :
  originPath url = Some (owner ++ "/" ++ rest) ->
  Contains owner "/" = false ->
  parseOriginURL url = Normal (owner, TrimSuffix rest ".git", None).
Proof.
  intros Hp Hno. rewrite parseOriginURL_eq, Hp.
  assert (Hi : Index owner "/" = None).
  { unfold Contains in Hno. now destruct (Index owner "/"). }
  rewrite (Index_after owner "/" rest eq_refl Hi).
  rewrite take_length_app.
  replace (String.length owner + 1) with (String.length (owner ++ "/"))
    by (rewrite length_append; reflexivity).
  rewrite <- append_assoc, drop_length_app. reflexivity.
Qed.

(** X1: the two URL forms that the comments of [GetOriginRepo] name parse
    back to what they were built from: for an owner without a slash and
    any rest, "git@github.com:owner/rest" and "https://github.com/owner/rest"
    give the owner and the rest without one final ".git"; a rest written
    with ".git" gives the rest, and later slashes stay in the name. *)
Theorem canonical_urls_parse_back (owner rest : string) :
  Contains owner "/" = false ->
  parseOriginURL ("git@github.com:" ++ owner ++ "/" ++ rest)
  = Normal (owner, TrimSuffix rest ".git", None)
  /\ parseOriginURL ("https://github.com/" ++ owner ++ "/" ++ rest)
     = Normal (owner, TrimSuffix rest ".git", None)
  /\ parseOriginURL ("git@github.com:" ++ owner ++ "/" ++ rest ++ ".git")
     = Normal (owner, rest, None)
  /\ parseOriginURL ("https://github.com/" ++ owner ++ "/" ++ rest ++ ".git")
     = Normal (owner, rest, None).
Proof.
  intros Hno.
  assert (Hssh : forall r,
             parseOriginURL ("git@github.com:" ++ owner ++ "/" ++ r)
             = Normal (owner, TrimSuffix r ".git", None)).
  { intros r. apply parse_of_path; [|exact Hno].
    unfold originPath, HasPrefix. rewrite prefix_of_app.
    now rewrite drop_length_app. }
  assert (Hhttps : forall r,
             parseOriginURL ("https://github.com/" ++ owner ++ "/" ++ r)
             = Normal (owner, TrimSuffix r ".git", None)).
  { intros r. apply parse_of_path; [|exact Hno].
    unfold originPath, HasPrefix.
    rewrite prefix_app_long by (simpl; lia).
    change (String.prefix "git@github.com:" "https://github.com/") with false.
    cbv iota.
    rewrite (Index_app "https://github.com/" (owner ++ "/" ++ r) "github.com/" 8 eq_refl).
    change (8 + String.length "github.com/") with (String.length "https://github.com/").
    now rewrite drop_length_app. }
  split; [apply Hssh|]. split; [apply Hhttps|].
  split; [rewrite Hssh | rewrite Hhttps]; now rewrite TrimSuffix_app.
Qed.

(** An occurrence is found no later than where one is known. *)
Lemma Index_le (a sub c : string) (m : nat) :
  Index (a ++ sub ++ c) sub = Some m -> m <= String.length a.
Proof.
  revert m; induction a as [|x a IH]; intros m.
  - change ("" ++ sub ++ c) with (sub ++ c).
    rewrite (Index_prefix _ _ (prefix_of_app sub c)). intros [= <-]. simpl; lia.
  - change (String x a ++ sub ++ c) with (String x (a ++ sub ++ c)).
    rewrite Index_cons.
    destruct (String.prefix sub (String x (a ++ sub ++ c))).
    + intros [= <-]. simpl; lia.
    + destruct (Index (a ++ sub ++ c) sub) as [m'|]; [|discriminate].
      intros [= <-]. specialize (IH m' eq_refl). simpl; lia.
Qed.

(** Where the marker is found when it does not begin earlier. *)
Lemma Index_host (pre x : string) :
  Contains (pre ++ "github.com") "github.com/" = false ->
  Index (pre ++ "github.com/" ++ x) "github.com/" = Some (String.length pre).
Proof.
  intros Hno.
  destruct (Index_found pre "github.com/" x) as [m Hm].
  pose proof (Index_le _ _ _ _ Hm) as Hle.
  destruct (Nat.eq_dec m (String.length pre)) as [->|Hne]; [exact Hm|].
  exfalso.
  assert (Heq : pre ++ "github.com/" ++ x = (pre ++ "github.com") ++ "/" ++ x).
  { rewrite append_assoc. reflexivity. }
  rewrite Heq in Hm. apply Index_app_inv in Hm.
  - unfold Contains in Hno. rewrite Hm in Hno. discriminate.
  - rewrite length_append. simpl. lia.
Qed.

(** X14: the HTTPS form is recognised by the text "github.com/" alone,
    wherever it first stands: whatever precedes it (any scheme, any host
    that ends in github.com, any path) is not looked at, and the owner
    and the name are read after it. *)
Theorem host_marker_anywhere (pre owner rest : string) :
  HasPrefix (pre ++ "github.com/" ++ owner ++ "/" ++ rest) "git@github.com:" = false ->
  Contains (pre ++ "github.com") "github.com/" = false ->
  Contains owner "/" = false ->
  parseOriginURL (pre ++ "github.com/" ++ owner ++ "/" ++ rest)
  = Normal (owner, TrimSuffix rest ".git", None).
Proof.
  intros Hssh Hfirst Hno. apply parse_of_path; [|exact Hno].
  unfold originPath. rewrite Hssh, (Index_host pre _ Hfirst).
  replace (String.length pre + String.length "github.com/")
    with (String.length (pre ++ "github.com/"))
    by (rewrite length_append; reflexivity).
  rewrite <- append_assoc, drop_length_app. reflexivity.
Qed.

End MoreParser.

Lemma host_marker_anywhere_witness :
  parseOriginURL ("https://not" ++ "github.com/" ++ "owner" ++ "/" ++ "repo.git")
  = Normal ("owner", "repo", None).
Proof.
  apply (host_marker_anywhere "https://not" "owner" "repo.git"); reflexivity.
Defined.

Lemma canonical_urls_parse_back_witness :
  parseOriginURL ("git@github.com:" ++ "rocq" ++ "/" ++ "group/tool.git.git")
  = Normal ("rocq", "group/tool.git", None).
Proof.
  apply (proj1 (canonical_urls_parse_back "rocq" "group/tool.git.git" eq_refl)).
Defined.

Section MoreDryRun.

Variable World : Type.

(** X2: but for the integration line, the dry run shows the real
    commands: when it is given the clone URL of the parent, its third,
    fourth and sixth line are "Would run: " followed by the command lines
    of the remote-add, of the fetch and of the push that [main] runs. *)
Theorem dry_run_shows_real_commands (config : AppConfig) (info : RepoInfo) (w : World) :
  let lines := printedOf (snd (printDryRun World config (CloneURL (Parent info)) w)) in
  nth_error lines 2 = Some ("Would run: " ++ commandLine (remoteAddCommand info) ++ LF)
  /\ nth_error lines 3 = Some ("Would run: " ++ commandLine fetchCommand ++ LF)
  /\ nth_error lines 5 = Some ("Would run: " ++ commandLine (pushCommand config) ++ LF)
  /\ List.length lines = 6.
Proof.
  cbv zeta. rewrite printDryRun_eq.
  unfold dryRunLog, commandLine, pushCommand, remoteAddCommand, fetchCommand.
  cbn [Args snd printedOf nth_error List.length]. rewrite pushArgs_eq.
  destruct (ForcePush config); repeat split; reflexivity.
Qed.

End MoreDryRun.

(** * Further properties of the orchestrator *)

Section MoreOrchestrator.

Variable World : Type.
Variable CombinedOutput : string -> list string -> World -> (string * option error) * World.
Variable DefaultRESTClient : World -> option error * World.
Variable client_Get : string -> World -> (RepoInfo * option error) * World.
Variable LookPath : string -> World -> (string * option error) * World.
Variable TrimSpace : string -> string.

Local Abbreviation main :=
  (main World CombinedOutput DefaultRESTClient client_Get LookPath TrimSpace).
Local Abbreviation logOf :=
  (logOf World CombinedOutput DefaultRESTClient client_Get LookPath TrimSpace).
Local Abbreviation main_mainRun :=
  (main_mainRun World CombinedOutput DefaultRESTClient client_Get LookPath TrimSpace).

(** Reasoning on a run of [main] goes by the eight cases of [mainRun]. *)
Ltac by_runs config w log r Hrun :=
  unfold logOf;
  generalize (main_mainRun config w);
  generalize (fst (fst (main config w)));
  generalize (snd (main config w));
  intros log r Hrun.

(** An event that is not in a log written out. *)
Ltac absent H :=
  cbn [In setupLog dryRunLog app] in H;
  repeat (let H' := fresh in
          destruct H as [H'|H]; [try discriminate H'; try congruence|]);
  try contradiction.

(** The events of [syncUpstream] are commands run with [gitBin], and lines. *)
Lemma syncRun_event (config : AppConfig) (info : RepoInfo) (gitBin : string)
      (r : flow unit) (t : list event)
      (name : string) (args : list string) (out : string) (err : option error) :
  syncRun config info gitBin r t ->
  In (Executed name args out err) t ->
  name = gitBin /\ In args (plannedCommands config info).
Proof.
  intros Hrun Hin. unfold plannedCommands.
  destruct Hrun; cbn [In] in Hin;
    repeat (destruct Hin as [H'|Hin];
            [try discriminate H';
             try (injection H' as <- <- _ _; split; [reflexivity | cbn [In]; tauto])|]);
    contradiction.
Qed.

Lemma syncRun_no_call (config : AppConfig) (info : RepoInfo) (gitBin : string)
      (r : flow unit) (t : list event) (e : event) :
  syncRun config info gitBin r t ->
  In e t ->
  match e with Executed _ _ _ _ | Printed _ => True | _ => False end.
Proof.
  intros Hrun Hin.
  destruct Hrun; cbn [In] in Hin;
    repeat (destruct Hin as [<-|Hin]; [exact I|]); contradiction.
Qed.

(** X3: [main] never panics: neither the indexing of the slices in
    [GetOriginRepo] nor the use of the pointer that [getRepoInfo] returns
    can fail, whatever the outside answers; [main] returns early or comes
    to its end. *)
Theorem main_never_panics (config : AppConfig) (w : World) :
  fst (fst (main config w)) <> Panicked
  /\ (fst (fst (main config w)) = Return \/ fst (fst (main config w)) = Next tt).
Proof.
  generalize (main_mainRun config w).
  generalize (fst (fst (main config w))); generalize (snd (main config w)).
  intros log r Hrun.
  destruct Hrun as [| | | | | | |out owner repo info gitBin r t _ _ _ Hsync];
    try (split; [discriminate | now left]).
  destruct Hsync; (split; [discriminate | (now left) || (now right)]).
Qed.

(** X4: a command other than the query for the origin URL is run only
    for a fork: the origin URL was parsed, the hosting API answered without
    error that the repository is a fork, git was looked up without error
    and the command runs the path found; and the command is one of the
    four of [syncUpstream], the remote-add naming the clone URL of the
    parent that the API reported. *)
Theorem commands_only_for_forks
        (config : AppConfig) (w : World)
        (name : string) (args : list string) (out : string) (err : option error) :
  In (Executed name args out err) (logOf config w) ->
  args <> ["remote"; "get-url"; "origin"] ->
  DryRun config = false
  /\ exists out0 owner repo info t,
       parseOriginURL (TrimSpace out0) = Normal (owner, repo, None)
       /\ Fork info = true
       /\ logOf config w = (setupLog out0 (repoPath owner repo) info name ++ t)%list
       /\ In args (plannedCommands config info).
Proof.
  by_runs config w log r Hrun. intros Hin Hargs.
  destruct Hrun as [| | | | | | |out0 owner repo info gitBin r t Hdry Hparse Hfork Hsync];
    try (absent Hin; fail).
  apply in_app_or in Hin. destruct Hin as [Hin|Hin]; [absent Hin|].
  destruct (syncRun_event _ _ _ _ _ _ _ _ _ Hsync Hin) as [-> Hplanned].
  split; [exact Hdry|].
  exists out0, owner, repo, info, t. auto.
Qed.

(** X5: the hosting API is asked once at most, and about the repository
    that the origin URL names: a request in the log follows the query for
    the origin URL, its path is "repos/<owner>/<name>" for the owner and
    the name parsed from the trimmed output of that query, and no other
    request is in the log. *)
Theorem api_request_names_origin
        (config : AppConfig) (w : World)
        (path : string) (info : RepoInfo) (err : option error) :
  In (ApiGet path info err) (logOf config w) ->
  exists out owner repo rest,
    parseOriginURL (TrimSpace out) = Normal (owner, repo, None)
    /\ path = "repos/" ++ owner ++ "/" ++ repo
    /\ logOf config w
       = ([ NewRESTClient None;
            Executed "git" ["remote"; "get-url"; "origin"] out None;
            ApiGet path info err ] ++ rest)%list
    /\ forall path' info' err', ~ In (ApiGet path' info' err') rest.
Proof.
  by_runs config w log r Hrun. intros Hin.
  destruct Hrun as [| | | |out owner repo info0 e Hdry Hparse
                    |out owner repo info0 Hdry Hparse Hfork
                    |out owner repo info0 gitPath e Hdry Hparse Hfork
                    |out owner repo info0 gitBin r t Hdry Hparse Hfork Hsync];
    try (absent Hin; fail).
  - cbn [In] in Hin. destruct Hin as [H|[H|[H|[H|[]]]]]; try discriminate H.
    injection H as <- <- <-.
    exists out, owner, repo, [Printed ("✗ Error: " ++ ("failed to get repo info: " ++ e) ++ LF)].
    repeat split; try assumption; try reflexivity.
    intros p i e' H. absent H.
  - cbn [In] in Hin. destruct Hin as [H|[H|[H|[H|[]]]]]; try discriminate H.
    injection H as <- <- <-.
    eexists out, owner, repo, [_].
    repeat split; try assumption; try reflexivity.
    intros p i e' H. absent H.
  - cbn [In] in Hin. destruct Hin as [H|[H|[H|[H|[H|[H|[]]]]]]]; try discriminate H.
    injection H as <- <- <-.
    eexists out, owner, repo, [_; _; _].
    repeat split; try assumption; try reflexivity.
    intros p i e' H. absent H.
  - apply in_app_or in Hin. destruct Hin as [Hin|Hin].
    + cbn [In setupLog] in Hin.
      destruct Hin as [H|[H|[H|[H|[H|[]]]]]]; try discriminate H.
      injection H as <- <- <-.
      exists out, owner, repo,
        ([ Printed ("✓ Detected fork: " ++ FullName info0 ++ " (parent: "
                    ++ ParentFullName (Parent info0) ++ ")" ++ LF);
           LookedPath "git" gitBin None ] ++ t)%list.
      repeat split; try assumption; try reflexivity.
      intros p i e' H. apply in_app_or in H. destruct H as [H|H]; [absent H|].
      exact (syncRun_no_call _ _ _ _ _ _ Hsync H).
    + exfalso. exact (syncRun_no_call _ _ _ _ _ _ Hsync Hin).
Qed.

(** X6: for a repository that the hosting API reports not to be a fork,
    [main] prints that it is not a fork, with its full name, and returns:
    git is not looked up and no command is run after the query for the
    origin URL. *)
Theorem not_a_fork_stops
        (config : AppConfig) (w : World) (path : string) (info : RepoInfo) :
  In (ApiGet path info None) (logOf config w) ->
  Fork info = false ->
  fst (fst (main config w)) = Return
  /\ exists out,
       logOf config w
       = [ NewRESTClient None;
           Executed "git" ["remote"; "get-url"; "origin"] out None;
           ApiGet path info None;
           Printed ("✗ " ++ ("repository " ++ FullName info ++ " isn't a fork") ++ LF) ].
Proof.
  by_runs config w log r Hrun. intros Hin Hnot.
  destruct Hrun as [| | | |out owner repo info0 e Hdry Hparse
                    |out owner repo info0 Hdry Hparse Hfork
                    |out owner repo info0 gitPath e Hdry Hparse Hfork
                    |out owner repo info0 gitBin r t Hdry Hparse Hfork Hsync];
    try (absent Hin; fail).
  - cbn [In] in Hin. destruct Hin as [H|[H|[H|[H|[]]]]]; try discriminate H.
    injection H as <- <-. split; [reflexivity|]. now exists out.
  - apply in_app_or in Hin. destruct Hin as [Hin|Hin]; [absent Hin|].
    exfalso. exact (syncRun_no_call _ _ _ _ _ _ Hsync Hin).
Qed.

Lemma planned_not_query (config : AppConfig) (info : RepoInfo) :
  ~ In ["remote"; "get-url"; "origin"] (plannedCommands config info).
Proof.
  unfold plannedCommands. cbn [In].
  intros [H|[H|[H|[H|[]]]]]; try discriminate H.
  - revert H. apply sync_not. tauto.
  - revert H. apply push_not. tauto.
Qed.

(** X7: when the origin URL cannot be had, [main] stops before it asks
    the hosting API: the query is run as plain "git"; if it fails, or if
    its trimmed output does not parse, the error is printed after
    "✗ Error: " and nothing else is called. *)
Theorem origin_failure_stops_before_api
        (config : AppConfig) (w : World) (name out : string) (err : option error) :
  In (Executed name ["remote"; "get-url"; "origin"] out err) (logOf config w) ->
  name = "git"
  /\ (forall e,
        err = Some e ->
        fst (fst (main config w)) = Return
        /\ logOf config w
           = [ NewRESTClient None;
               Executed "git" ["remote"; "get-url"; "origin"] out (Some e);
               Printed ("✗ Error: " ++ ("failed to get origin remote: " ++ e) ++ LF) ])
  /\ (forall owner repo e,
        err = None ->
        parseOriginURL (TrimSpace out) = Normal (owner, repo, Some e) ->
        fst (fst (main config w)) = Return
        /\ logOf config w
           = [ NewRESTClient None;
               Executed "git" ["remote"; "get-url"; "origin"] out None;
               Printed ("✗ Error: " ++ e ++ LF) ]).
Proof.
  by_runs config w log r Hrun. intros Hin.
  assert (Hfirst : forall out0 err0 rest,
             In (Executed name ["remote"; "get-url"; "origin"] out err)
                (NewRESTClient None
                   :: Executed "git" ["remote"; "get-url"; "origin"] out0 err0 :: rest) ->
             (forall e, ~ In e rest \/ match e with
                                       | Executed _ a _ _ =>
                                           a <> ["remote"; "get-url"; "origin"]
                                       | _ => True
                                       end) ->
             name = "git" /\ out = out0 /\ err = err0).
  { intros out0 err0 rest [H|[H|H]] Hrest; [discriminate H| |].
    - now injection H as <- <- <-.
    - destruct (Hrest (Executed name ["remote"; "get-url"; "origin"] out err))
        as [Hno|Hno]; [contradiction | now contradiction Hno]. }
  destruct Hrun as [Hdry|e0 Hdry|out0 e0 Hdry|out0 owner0 repo0 e0 Hdry Hparse
                    |out0 owner0 repo0 info0 e0 Hdry Hparse
                    |out0 owner0 repo0 info0 Hdry Hparse Hfork
                    |out0 owner0 repo0 info0 gitPath e0 Hdry Hparse Hfork
                    |out0 owner0 repo0 info0 gitBin r t Hdry Hparse Hfork Hsync];
    try (absent Hin; fail).
  - destruct (Hfirst _ _ _ Hin) as (-> & -> & ->).
    { intros ev. destruct ev; auto. left. intros Habs. absent Habs. }
    split; [reflexivity|]. split.
    + intros e [= <-]. split; reflexivity.
    + intros owner repo e H. discriminate H.
  - destruct (Hfirst _ _ _ Hin) as (-> & -> & ->).
    { intros ev. destruct ev; auto. left. intros Habs. absent Habs. }
    split; [reflexivity|]. split.
    + intros e H. discriminate H.
    + intros owner repo e _ H. split; [reflexivity|]. congruence.
  - destruct (Hfirst _ _ _ Hin) as (-> & -> & ->).
    { intros ev. destruct ev; auto. left. intros Habs. absent Habs. }
    split; [reflexivity|]. split; [intros e H; discriminate H|].
    intros owner repo e _ H. congruence.
  - destruct (Hfirst _ _ _ Hin) as (-> & -> & ->).
    { intros ev. destruct ev; auto. left. intros Habs. absent Habs. }
    split; [reflexivity|]. split; [intros e H; discriminate H|].
    intros owner repo e _ H. congruence.
  - destruct (Hfirst _ _ _ Hin) as (-> & -> & ->).
    { intros ev. destruct ev; auto. left. intros Habs. absent Habs. }
    split; [reflexivity|]. split; [intros e H; discriminate H|].
    intros owner repo e _ H. congruence.
  - cbn [setupLog app] in Hin.
    destruct (Hfirst _ _ _ Hin) as (-> & -> & ->).
    { intros e. destruct e as [| n a o e' | | |]; auto.
      destruct (list_eq_dec string_dec a ["remote"; "get-url"; "origin"]) as [->|Hne];
        [|now right].
      left. intros H. cbn [In] in H.
      destruct H as [H|[H|[H|H]]]; try discriminate H.
      destruct (syncRun_event _ _ _ _ _ _ _ _ _ Hsync H) as [_ Hp].
      exact (planned_not_query _ _ Hp). }
    split; [reflexivity|]. split; [intros e H; discriminate H|].
    intros owner repo e _ H. congruence.
Qed.

(** X8: when git is not found, [main] reports it and runs no command:
    after the line that tells the fork, it prints
    "✗ Error while looking for git: " with the error and returns. *)
Theorem git_not_found_stops
        (config : AppConfig) (w : World) (file path : string) (e : error) :
  In (LookedPath file path (Some e)) (logOf config w) ->
  file = "git"
  /\ fst (fst (main config w)) = Return
  /\ (exists before,
        logOf config w
        = (before ++ [ LookedPath "git" path (Some e);
                       Printed ("✗ Error while looking for git: " ++ e ++ LF) ])%list)
  /\ setupOnly (logOf config w).
Proof.
  by_runs config w log r Hrun. intros Hin.
  destruct Hrun as [| | | | |
                    |out owner repo info0 gitPath e0 Hdry Hparse Hfork
                    |out owner repo info0 gitBin r t Hdry Hparse Hfork Hsync];
    try (absent Hin; fail).
  - cbn [In] in Hin.
    destruct Hin as [H|[H|[H|[H|[H|[H|[]]]]]]]; try discriminate H.
    injection H as <- <- <-.
    split; [reflexivity|]. split; [reflexivity|]. split.
    + eexists [_; _; _; _]. reflexivity.
    + intros a o e' H. cbn [executedOf In] in H.
      destruct H as [H|[]]. congruence.
  - apply in_app_or in Hin. destruct Hin as [Hin|Hin]; [absent Hin|].
    exfalso. exact (syncRun_no_call _ _ _ _ _ _ Hsync Hin).
Qed.

(** X9: of the messages that [main] prints, each by one call of
    [fmt.Printf] or [fmt.Println], exactly one begins with the cross mark
    when [main] stops on an error, and none does in a dry run or when
    [main] comes to its end; that message is the last one printed, but for
    the abort line that follows it after a failed integration.  (This
    counts messages, not lines of output: what a collaborator put into an
    error text is not looked at.) *)
Theorem one_error_message_per_failure (config : AppConfig) (w : World) :
  (DryRun config = true \/ fst (fst (main config w)) = Next tt ->
   crossMessages (logOf config w) = [])
  /\ (DryRun config = false ->
      fst (fst (main config w)) = Return ->
      exists msg,
        crossMessages (logOf config w) = [msg]
        /\ (List.last (printedOf (logOf config w)) "" = msg
            \/ (List.last (printedOf (logOf config w)) "" = abortLine config
                /\ List.last (List.removelast (printedOf (logOf config w))) "" = msg))).
Proof.
  by_runs config w log r Hrun.
  destruct Hrun as [Hdry|e0 Hdry|out0 e0 Hdry|out0 owner0 repo0 e0 Hdry Hparse
                    |out0 owner0 repo0 info0 e0 Hdry Hparse
                    |out0 owner0 repo0 info0 Hdry Hparse Hfork
                    |out0 owner0 repo0 info0 gitPath e0 Hdry Hparse Hfork
                    |out0 owner0 repo0 info0 gitBin r t Hdry Hparse Hfork Hsync].
  - split; [intros _; reflexivity | congruence].
  - split; [intros [H|H]; congruence
           | intros _ _; eexists; split; [reflexivity | left; reflexivity]].
  - split; [intros [H|H]; congruence
           | intros _ _; eexists; split; [reflexivity | left; reflexivity]].
  - split; [intros [H|H]; congruence
           | intros _ _; eexists; split; [reflexivity | left; reflexivity]].
  - split; [intros [H|H]; congruence
           | intros _ _; eexists; split; [reflexivity | left; reflexivity]].
  - split; [intros [H|H]; congruence
           | intros _ _; eexists; split; [reflexivity | left; reflexivity]].
  - split; [intros [H|H]; congruence
           | intros _ _; eexists; split; [reflexivity | left; reflexivity]].
  - destruct Hsync as [o1 e1 Hfatal | o1 e1 o2 e2 Hp | o1 e1 o2 o3 e3 Hp
                       | o1 e1 o2 o3 o4 e4 Hp | o1 e1 o2 o3 o4 Hp];
      unfold crossMessages, errorLine, abortLine, syncedLine;
      cbn [setupLog app printedOf]; destruct (Rebase config);
      (split; [intros [Hx|Hx]; try congruence; reflexivity
              | intros _ Hx;
                first [ discriminate Hx
                      | eexists;
                        split; [reflexivity
                               | first [left; reflexivity
                                       | right; split; reflexivity]]]]).
Qed.

(** X10: the line "✓ Pushed to origin/<branch>" is printed exactly when
    [main] comes to its end, and then the log holds, after the query for
    the origin URL, the four commands with the fetch, the integration and
    the push succeeding. *)
Theorem pushed_line_means_success (config : AppConfig) (w : World) :
  (In (Printed (pushedLine config)) (logOf config w)
   <-> fst (fst (main config w)) = Next tt)
  /\ (fst (fst (main config w)) = Next tt ->
      DryRun config = false
      /\ exists out0 info o1 e1 o2 o3 o4,
           Fork info = true
           /\ passed info (Args (remoteAddCommand info), o1, e1)
           /\ executedOf (logOf config w)
              = [ (["remote"; "get-url"; "origin"], out0, None);
                  (Args (remoteAddCommand info), o1, e1);
                  (Args fetchCommand, o2, None);
                  (Args (getSyncCommand config (UpstreamBranch config)), o3, None);
                  (Args (pushCommand config), o4, None) ]).
Proof.
  by_runs config w log r Hrun. unfold pushedLine.
  destruct Hrun as [Hdry|e0 Hdry|out0 e0 Hdry|out0 owner0 repo0 e0 Hdry Hparse
                    |out0 owner0 repo0 info0 e0 Hdry Hparse
                    |out0 owner0 repo0 info0 Hdry Hparse Hfork
                    |out0 owner0 repo0 info0 gitPath e0 Hdry Hparse Hfork
                    |out0 owner0 repo0 info0 gitBin r t Hdry Hparse Hfork Hsync];
    try (split; [split; [intros Hin; destruct (Rebase config); absent Hin
                        | discriminate]
                | discriminate]).
  destruct Hsync as [o1 e1 Hfatal | o1 e1 o2 e2 Hp | o1 e1 o2 o3 e3 Hp
                     | o1 e1 o2 o3 o4 e4 Hp | o1 e1 o2 o3 o4 Hp];
    try (split; [split; [intros Hin; unfold errorLine, abortLine, syncedLine in Hin;
                          destruct (Rebase config); absent Hin
                        | discriminate]
                | discriminate]).
  split.
  - split; [reflexivity|]. intros _.
    apply in_or_app. right. cbn [In]. do 6 right. left. reflexivity.
  - intros _. split; [exact Hdry|].
    exists out0, info0, o1, e1, o2, o3, o4.
    split; [exact Hfork|]. split; [exact Hp | reflexivity].
Qed.

(** An impossible identity of two commands of a run. *)
Ltac not_that_command H :=
  let Hargs := fresh "Hargs" in
  first
    [ discriminate H
    | injection H as ? Hargs ? ?;
      first
        [ discriminate Hargs
        | exfalso; revert Hargs; apply sync_not; tauto
        | exfalso; revert Hargs; apply push_not; tauto
        | exfalso; revert Hargs; apply sync_not_push
        | exfalso; symmetry in Hargs; revert Hargs; apply sync_not; tauto
        | exfalso; symmetry in Hargs; revert Hargs; apply push_not; tauto
        | exfalso; symmetry in Hargs; revert Hargs; apply sync_not_push ] ].

Ltac no_command H :=
  cbn [In] in H;
  repeat (let H' := fresh in destruct H as [H'|H]; [not_that_command H'|]);
  try contradiction.

Lemma syncRun_fetch_failed (config : AppConfig) (info : RepoInfo) (gitBin : string)
      (r : flow unit) (t : list event) (name out : string) (err : error) :
  syncRun config info gitBin r t ->
  In (Executed name (Args fetchCommand) out (Some err)) t ->
  r = Return
  /\ (exists o1 e1,
        t = [ Executed gitBin (Args (remoteAddCommand info)) o1 e1;
              Executed name (Args fetchCommand) out (Some err);
              Printed (errorLine fetchCommand err out) ])
  /\ (forall name' out' err',
         ~ In (Executed name' (Args (getSyncCommand config (UpstreamBranch config)))
                        out' err') t)
  /\ (forall name' out' err',
         ~ In (Executed name' (Args (pushCommand config)) out' err') t).
Proof.
  intros Hrun Hin.
  destruct Hrun as [o1 e1 Hfatal | o1 e1 o2 e2 Hp | o1 e1 o2 o3 e3 Hp
                     | o1 e1 o2 o3 o4 e4 Hp | o1 e1 o2 o3 o4 Hp];
    try (no_command Hin; fail).
  cbn [In] in Hin. destruct Hin as [H|[H|Hin]];
    [not_that_command H | | no_command Hin].
  injection H as -> -> ->.
  split; [reflexivity|]. split; [now exists o1, e1|].
  split; intros name' out' err' Hin; no_command Hin.
Qed.

Lemma syncRun_push_failed (config : AppConfig) (info : RepoInfo) (gitBin : string)
      (r : flow unit) (t : list event) (name out : string) (err : error) :
  syncRun config info gitBin r t ->
  In (Executed name (Args (pushCommand config)) out (Some err)) t ->
  r = Return
  /\ exists o1 e1 o2 o3,
       t = [ Executed gitBin (Args (remoteAddCommand info)) o1 e1;
             Executed gitBin (Args fetchCommand) o2 None;
             Printed ("✓ Fetched upstream" ++ LF);
             Executed name (Args (getSyncCommand config (UpstreamBranch config))) o3 None;
             Printed (syncedLine config);
             Executed name (Args (pushCommand config)) out (Some err);
             Printed (errorLine (pushCommand config) err out) ].
Proof.
  intros Hrun Hin.
  destruct Hrun as [o1 e1 Hfatal | o1 e1 o2 e2 Hp | o1 e1 o2 o3 e3 Hp
                     | o1 e1 o2 o3 o4 e4 Hp | o1 e1 o2 o3 o4 Hp];
    try (no_command Hin; fail).
  cbn [In] in Hin. destruct Hin as [H|[H|[H|[H|[H|[H|Hin]]]]]];
    [not_that_command H | not_that_command H | not_that_command H
     | not_that_command H | not_that_command H | | no_command Hin].
  injection H as -> -> ->.
  split; [reflexivity|]. now exists o1, e1, o2, o3.
Qed.

Local Abbreviation command_of_sync :=
  (command_of_sync World CombinedOutput DefaultRESTClient client_Get LookPath TrimSpace).

Lemma not_in_setup (pre : list event) (name : string) (args : list string)
      (out : string) (err : option error) :
  setupOnly pre ->
  args <> ["remote"; "get-url"; "origin"] ->
  ~ In (Executed name args out err) pre.
Proof.
  intros Hpre Hargs H. apply In_executedOf in H. apply Hpre in H. contradiction.
Qed.

(** X11: when the log shows the fetch failing, [main] prints the error
    line and returns: the log ends there, and neither the integration nor
    the push is in it. *)
Theorem fetch_failure_stops
        (config : AppConfig) (w : World) (name out : string) (err : error) :
  In (Executed name ["fetch"; "upstream"] out (Some err)) (logOf config w) ->
  fst (fst (main config w)) = Return
  /\ (exists before,
        logOf config w
        = (before ++ [ Executed name ["fetch"; "upstream"] out (Some err);
                       Printed (errorLine fetchCommand err out) ])%list)
  /\ (forall name' out' err',
         ~ In (Executed name' (Args (getSyncCommand config (UpstreamBranch config)))
                        out' err') (logOf config w))
  /\ (forall name' out' err',
         ~ In (Executed name' (pushArgs config) out' err') (logOf config w)).
Proof.
  intros Hin.
  destruct (command_of_sync config w _ _ _ _ Hin) as
    (pre & t & info & gitBin & Hlog & Hpre & Hrun & Hin'); [discriminate|].
  destruct (syncRun_fetch_failed _ _ _ _ _ _ _ _ Hrun Hin')
    as (Hret & (o1 & e1 & Ht) & Hnosync & Hnopush).
  split; [exact Hret|]. split; [|split].
  - exists (pre ++ [Executed gitBin (Args (remoteAddCommand info)) o1 e1])%list.
    rewrite Hlog, Ht, <- app_assoc. reflexivity.
  - intros name' out' err' H. rewrite Hlog in H. apply in_app_or in H.
    destruct H as [H|H]; [|exact (Hnosync _ _ _ H)].
    revert H. apply not_in_setup; [exact Hpre|]. apply sync_not. tauto.
  - intros name' out' err' H. rewrite Hlog in H. apply in_app_or in H.
    destruct H as [H|H]; [|exact (Hnopush _ _ _ H)].
    revert H. apply not_in_setup; [exact Hpre|].
    change (pushArgs config) with (Args (pushCommand config)). apply push_not. tauto.
Qed.

(** X12: when the log shows the push failing, the integration has been
    run with success and confirmed just before; [main] prints the error
    line of the push and returns, and nothing is undone. *)
Theorem push_failure_after_integration
        (config : AppConfig) (w : World) (name out : string) (err : error) :
  In (Executed name (pushArgs config) out (Some err)) (logOf config w) ->
  fst (fst (main config w)) = Return
  /\ exists before o3,
       logOf config w
       = (before
            ++ [ Executed name (Args (getSyncCommand config (UpstreamBranch config)))
                          o3 None;
                 Printed (syncedLine config);
                 Executed name (pushArgs config) out (Some err);
                 Printed (errorLine (pushCommand config) err out) ])%list.
Proof.
  intros Hin.
  destruct (command_of_sync config w _ _ _ _ Hin) as
    (pre & t & info & gitBin & Hlog & Hpre & Hrun & Hin').
  { change (pushArgs config) with (Args (pushCommand config)). apply push_not. tauto. }
  destruct (syncRun_push_failed _ _ _ _ _ _ _ _ Hrun Hin')
    as (Hret & (o1 & e1 & o2 & o3 & Ht)).
  split; [exact Hret|].
  exists (pre ++ [ Executed gitBin (Args (remoteAddCommand info)) o1 e1;
                   Executed gitBin (Args fetchCommand) o2 None;
                   Printed ("✓ Fetched upstream" ++ LF) ])%list, o3.
  rewrite Hlog, Ht, <- app_assoc. reflexivity.
Qed.

(** X13: a failed remote-add is passed over as soon as the phrase
    "remote upstream already exists" stands in the combined output of the
    command or in the text of its error: the next event is the fetch. *)
Theorem already_exists_in_output_or_error
        (config : AppConfig) (w : World) (name url out : string) (err : error) :
  In (Executed name ["remote"; "add"; "upstream"; url] out (Some err)) (logOf config w) ->
  strings.Contains out alreadyExists = true
  \/ strings.Contains err alreadyExists = true ->
  exists before out' err' rest,
    logOf config w
    = (before ++ Executed name ["remote"; "add"; "upstream"; url] out (Some err)
              :: Executed name ["fetch"; "upstream"] out' err' :: rest)%list.
Proof.
  intros Hin Hphrase.
  destruct (command_of_sync config w _ _ _ _ Hin) as
    (pre & t & info & gitBin & Hlog & Hpre & Hrun & Hin'); [discriminate|].
  destruct (syncRun_remote_add_failed _ _ _ _ _ _ _ _ _ Hrun Hin')
    as (-> & -> & Hyes & _).
  destruct Hyes as (out' & err' & rest & Ht).
  - unfold commandError, alreadyExists in *.
    destruct Hphrase as [H|H].
    + do 5 apply Contains_after. exact H.
    + do 2 apply Contains_after. apply Contains_before. exact H.
  - exists pre, out', err', rest. now rewrite Hlog, Ht.
Qed.

(** X15: when the hosting API fails, [getRepoInfo] wraps the error and
    [main] prints it after "✗ Error: " and returns: git is not looked up
    and nothing is run after the query for the origin URL. *)
Theorem metadata_failure_stops
        (config : AppConfig) (w : World) (path : string) (info : RepoInfo) (e : error) :
  In (ApiGet path info (Some e)) (logOf config w) ->
  fst (fst (main config w)) = Return
  /\ exists out,
       logOf config w
       = [ NewRESTClient None;
           Executed "git" ["remote"; "get-url"; "origin"] out None;
           ApiGet path info (Some e);
           Printed ("✗ Error: " ++ ("failed to get repo info: " ++ e) ++ LF) ].
Proof.
  by_runs config w log r Hrun. intros Hin.
  destruct Hrun as [Hdry|e0 Hdry|out0 e0 Hdry|out0 owner0 repo0 e0 Hdry Hparse
                    |out0 owner0 repo0 info0 e0 Hdry Hparse
                    |out0 owner0 repo0 info0 Hdry Hparse Hfork
                    |out0 owner0 repo0 info0 gitPath e0 Hdry Hparse Hfork
                    |out0 owner0 repo0 info0 gitBin r t Hdry Hparse Hfork Hsync];
    try (absent Hin; fail).
  - cbn [In] in Hin. destruct Hin as [H|[H|[H|[H|[]]]]]; try discriminate H.
    injection H as <- <- <-. split; [reflexivity|]. now exists out0.
  - apply in_app_or in Hin. destruct Hin as [Hin|Hin]; [absent Hin|].
    exfalso. exact (syncRun_no_call _ _ _ _ _ _ Hsync Hin).
Qed.

(** X16: when no API client can be made, [main] prints the error and
    returns before anything else: not even the origin URL is queried. *)
Theorem client_failure_stops (config : AppConfig) (w : World) (e : error) :
  In (NewRESTClient (Some e)) (logOf config w) ->
  fst (fst (main config w)) = Return
  /\ logOf config w = [ NewRESTClient (Some e); Printed ("✗ Error: " ++ e ++ LF) ].
Proof.
  by_runs config w log r Hrun. intros Hin.
  destruct Hrun as [Hdry|e0 Hdry|out0 e0 Hdry|out0 owner0 repo0 e0 Hdry Hparse
                    |out0 owner0 repo0 info0 e0 Hdry Hparse
                    |out0 owner0 repo0 info0 Hdry Hparse Hfork
                    |out0 owner0 repo0 info0 gitPath e0 Hdry Hparse Hfork
                    |out0 owner0 repo0 info0 gitBin r t Hdry Hparse Hfork Hsync];
    try (absent Hin; fail).
  - cbn [In] in Hin. destruct Hin as [H|[H|[]]]; try discriminate H.
    injection H as <-. split; reflexivity.
  - apply in_app_or in Hin. destruct Hin as [Hin|Hin]; [absent Hin|].
    exfalso. exact (syncRun_no_call _ _ _ _ _ _ Hsync Hin).
Qed.

End MoreOrchestrator.

(** ** Concrete runs of the scenarios *)

Ltac find_event := vm_compute; repeat (first [left; reflexivity | right]).

Lemma commands_only_for_forks_witness :
  exists out0 owner repo info t,
    parseOriginURL (strings.TrimSpaceASCII out0) = Normal (owner, repo, None)
    /\ Fork info = true
    /\ scenarioLog healthy defaultConfig
       = (setupLog out0 (repoPath owner repo) info "/usr/bin/git" ++ t)%list
    /\ In ["fetch"; "upstream"] (plannedCommands defaultConfig info).
Proof.
  refine (proj2 (commands_only_for_forks unit (scenarioExec healthy)
                   (fun w => (clientError healthy, w))
                   (fun _ w => (metadata healthy, w))
                   (fun _ w => (gitLookup healthy, w))
                   strings.TrimSpaceASCII
                   defaultConfig tt "/usr/bin/git" ["fetch"; "upstream"] "" None _ _)).
  - find_event.
  - discriminate.
Defined.

Lemma api_request_names_origin_witness :
  exists out owner repo rest,
    parseOriginURL (strings.TrimSpaceASCII out) = Normal (owner, repo, None)
    /\ "repos/me/stream" = "repos/" ++ owner ++ "/" ++ repo
    /\ scenarioLog healthy defaultConfig
       = ([ NewRESTClient None;
            Executed "git" ["remote"; "get-url"; "origin"] out None;
            ApiGet "repos/me/stream" (fst (metadata healthy)) None ] ++ rest)%list
    /\ forall path' info' err', ~ In (ApiGet path' info' err') rest.
Proof.
  refine (api_request_names_origin unit (scenarioExec healthy)
            (fun w => (clientError healthy, w))
            (fun _ w => (metadata healthy, w))
            (fun _ w => (gitLookup healthy, w))
            strings.TrimSpaceASCII
            defaultConfig tt "repos/me/stream" (fst (metadata healthy)) None _).
  find_event.
Defined.

Lemma not_a_fork_stops_witness :
  fst (fst (scenarioMain notAFork defaultConfig tt)) = Return.
Proof.
  refine (proj1 (not_a_fork_stops unit (scenarioExec notAFork)
                   (fun w => (clientError notAFork, w))
                   (fun _ w => (metadata notAFork, w))
                   (fun _ w => (gitLookup notAFork, w))
                   strings.TrimSpaceASCII
                   defaultConfig tt "repos/me/stream" (fst (metadata notAFork)) _ _)).
  - find_event.
  - reflexivity.
Defined.

Lemma origin_failure_stops_before_api_witness :
  scenarioLog noOrigin defaultConfig
  = [ NewRESTClient None;
      Executed "git" ["remote"; "get-url"; "origin"]
               ("error: No such remote 'origin'" ++ LF) (Some "exit status 2");
      Printed ("✗ Error: " ++ ("failed to get origin remote: " ++ "exit status 2") ++ LF) ].
Proof.
  refine (proj2 (proj1 (proj2
            (origin_failure_stops_before_api unit (scenarioExec noOrigin)
               (fun w => (clientError noOrigin, w))
               (fun _ w => (metadata noOrigin, w))
               (fun _ w => (gitLookup noOrigin, w))
               strings.TrimSpaceASCII
               defaultConfig tt "git" ("error: No such remote 'origin'" ++ LF)
               (Some "exit status 2") _)) "exit status 2" eq_refl)).
  find_event.
Defined.

Lemma git_not_found_stops_witness :
  fst (fst (scenarioMain noGit defaultConfig tt)) = Return.
Proof.
  refine (proj1 (proj2
            (git_not_found_stops unit (scenarioExec noGit)
               (fun w => (clientError noGit, w))
               (fun _ w => (metadata noGit, w))
               (fun _ w => (gitLookup noGit, w))
               strings.TrimSpaceASCII
               defaultConfig tt "git" "" "executable file not found in $PATH" _))).
  find_event.
Defined.

Lemma one_error_message_per_failure_witness :
  exists msg,
    crossMessages (scenarioLog (breaking "merge" "CONFLICT (content)") defaultConfig)
    = [msg]
    /\ (List.last (printedOf (scenarioLog (breaking "merge" "CONFLICT (content)")
                                          defaultConfig)) "" = msg
        \/ (List.last (printedOf (scenarioLog (breaking "merge" "CONFLICT (content)")
                                              defaultConfig)) ""
            = abortLine defaultConfig
            /\ List.last (List.removelast
                            (printedOf (scenarioLog (breaking "merge" "CONFLICT (content)")
                                                    defaultConfig))) "" = msg)).
Proof.
  refine (proj2 (one_error_message_per_failure unit
                   (scenarioExec (breaking "merge" "CONFLICT (content)"))
                   (fun w => (clientError healthy, w))
                   (fun _ w => (metadata healthy, w))
                   (fun _ w => (gitLookup healthy, w))
                   strings.TrimSpaceASCII
                   defaultConfig tt) _ _).
  - reflexivity.
  - reflexivity.
Defined.

Lemma pushed_line_means_success_witness :
  In (Printed (pushedLine defaultConfig)) (scenarioLog healthy defaultConfig).
Proof.
  refine (proj2 (proj1 (pushed_line_means_success unit (scenarioExec healthy)
                          (fun w => (clientError healthy, w))
                          (fun _ w => (metadata healthy, w))
                          (fun _ w => (gitLookup healthy, w))
                          strings.TrimSpaceASCII
                          defaultConfig tt)) _).
  reflexivity.
Defined.

Lemma fetch_failure_stops_witness :
  fst (fst (scenarioMain (breaking "fetch" "fatal: unable to access") defaultConfig tt))
  = Return.
Proof.
  refine (proj1 (fetch_failure_stops unit
                   (scenarioExec (breaking "fetch" "fatal: unable to access"))
                   (fun w => (clientError healthy, w))
                   (fun _ w => (metadata healthy, w))
                   (fun _ w => (gitLookup healthy, w))
                   strings.TrimSpaceASCII
                   defaultConfig tt "/usr/bin/git" "fatal: unable to access"
                   "exit status 1" _)).
  find_event.
Defined.

Lemma push_failure_after_integration_witness :
  fst (fst (scenarioMain (breaking "push" "! [rejected]") defaultConfig tt)) = Return.
Proof.
  refine (proj1 (push_failure_after_integration unit
                   (scenarioExec (breaking "push" "! [rejected]"))
                   (fun w => (clientError healthy, w))
                   (fun _ w => (metadata healthy, w))
                   (fun _ w => (gitLookup healthy, w))
                   strings.TrimSpaceASCII
                   defaultConfig tt "/usr/bin/git" "! [rejected]" "exit status 1" _)).
  find_event.
Defined.

Lemma already_exists_in_output_or_error_witness :
  exists before out' err' rest,
    scenarioLog (breaking "remote" "error: remote upstream already exists.") defaultConfig
    = (before
         ++ Executed "/usr/bin/git"
                     ["remote"; "add"; "upstream"; "https://github.com/up/stream.git"]
                     "error: remote upstream already exists." (Some "exit status 1")
         :: Executed "/usr/bin/git" ["fetch"; "upstream"] out' err' :: rest)%list.
Proof.
  refine (already_exists_in_output_or_error unit
            (scenarioExec (breaking "remote" "error: remote upstream already exists."))
            (fun w => (clientError healthy, w))
            (fun _ w => (metadata healthy, w))
            (fun _ w => (gitLookup healthy, w))
            strings.TrimSpaceASCII
            defaultConfig tt "/usr/bin/git" "https://github.com/up/stream.git"
            "error: remote upstream already exists." "exit status 1" _ _).
  - find_event.
  - left. reflexivity.
Defined.

Lemma metadata_failure_stops_witness :
  fst (fst (scenarioMain noMetadata defaultConfig tt)) = Return.
Proof.
  refine (proj1 (metadata_failure_stops unit (scenarioExec noMetadata)
                   (fun w => (clientError noMetadata, w))
                   (fun _ w => (metadata noMetadata, w))
                   (fun _ w => (gitLookup noMetadata, w))
                   strings.TrimSpaceASCII
                   defaultConfig tt "repos/me/stream" (fst (metadata healthy))
                   "HTTP 404: Not Found" _)).
  find_event.
Defined.

Lemma client_failure_stops_witness :
  scenarioLog noClient defaultConfig
  = [ NewRESTClient (Some "authentication token not found");
      Printed ("✗ Error: " ++ "authentication token not found" ++ LF) ].
Proof.
  refine (proj2 (client_failure_stops unit (scenarioExec noClient)
                   (fun w => (clientError noClient, w))
                   (fun _ w => (metadata noClient, w))
                   (fun _ w => (gitLookup noClient, w))
                   strings.TrimSpaceASCII
                   defaultConfig tt "authentication token not found" _)).
  find_event.
Defined.
